(** * DocReader fixture generator: the OLE2 compound-file writer and the
      SummaryInformation property-set encoder of [scripts/generate_fixtures.py]

    The Python functions [_dir_entry], [build_ole2], [_prop_i4], [_prop_str]
    and [make_summary_stream], the payload construction of
    [make_doc_10page] and [make_ppt_5slide], and the header patch of
    [make_xls_3sheet] are embedded as Rocq functions.
    Python integers are [Z], [bytes] values are lists of [Byte.byte], [str]
    values are lists of code points, and an exception is a [Raise] in a
    small error monad. *)

From Stdlib Require Import ZArith Lia List Ascii String Strings.Byte.
From stdpp Require Import base tactics option numbers list list_numbers.

Local Open Scope Z_scope.

(** ** Python values *)

Abbreviation bytes := (list byte).

(** A [str] is a sequence of Unicode code points (0 .. 0x10FFFF). *)
Abbreviation str := (list Z).

Inductive exn : Set :=
  | AssertionError
  | StructError
  | UnicodeEncodeError
  | IndexError.

Inductive result (A : Type) : Type :=
  | Ok (a : A)
  | Raise (e : exn).
Arguments Ok {A} a.
Arguments Raise {A} e.

#[global] Instance result_ret : MRet result := fun _ a => Ok a.
#[global] Instance result_bind : MBind result := fun _ _ f m =>
  match m with
  | Ok a => f a
  | Raise e => Raise e
  end.

(** [assert c] *)
Definition assert (c : bool) : result unit :=
  if c then Ok tt else Raise AssertionError.

(** [for x in l: s = body(s, x)] *)
Fixpoint for_each {A S : Type} (l : list A) (s : S)
    (body : S -> A -> result S) : result S :=
  match l with
  | [] => Ok s
  | x :: l' => s' ← body s x; for_each l' s' body
  end.

(** [len(l)] *)
Definition len {A : Type} (l : list A) : Z := Z.of_nat (length l).

(** [range(n)] *)
Definition range (n : Z) : list Z := seqZ 0 n.

(** [enumerate(l)], counting from [k] *)
Fixpoint enumerate_from {A : Type} (k : Z) (l : list A) : list (Z * A) :=
  match l with
  | [] => []
  | x :: l' => (k, x) :: enumerate_from (k + 1) l'
  end.

Definition enumerate {A : Type} (l : list A) : list (Z * A) :=
  enumerate_from 0 l.

(** [l[i]] on a list: negative indices count from the end, anything out of
    range raises [IndexError]. *)
Definition norm_index {A : Type} (l : list A) (i : Z) : result nat :=
  if (0 <=? i) && (i <? len l) then Ok (Z.to_nat i)
  else if (- len l <=? i) && (i <? 0) then Ok (Z.to_nat (len l + i))
  else Raise IndexError.

Definition get_item {A : Type} (l : list A) (i : Z) : result A :=
  k ← norm_index l i;
  match l !! k with
  | Some x => Ok x
  | None => Raise IndexError
  end.

(** [l[i] = v] *)
Definition set_item {A : Type} (l : list A) (i : Z) (v : A) : result (list A) :=
  k ← norm_index l i; Ok (<[k:=v]> l).

(** [b * n] for a bytes value [b] *)
Definition bytes_mul (b : bytes) (n : Z) : bytes :=
  concat (replicate (Z.to_nat n) b).

(** [b.ljust(width, fill)] *)
Definition ljust (b : bytes) (width : Z) (fill : byte) : bytes :=
  b ++ replicate (Z.to_nat (width - len b)) fill.

Definition zero : byte := "000"%byte.

Definition byte_of_Z (z : Z) : byte :=
  match Byte.of_N (Z.to_N (z mod 256)) with
  | Some b => b
  | None => zero
  end.

Definition Z_of_byte (b : byte) : Z := Z.of_N (Byte.to_N b).

(** ** [struct.pack], little-endian *)

(** The [w] low-order bytes of [v], least significant first. *)
Fixpoint le_bytes (w : nat) (v : Z) : bytes :=
  match w with
  | O => []
  | S w' => byte_of_Z (v mod 256) :: le_bytes w' (v / 256)
  end.

(** The value of a little-endian byte string ([struct.unpack] of an
    unsigned field). *)
Fixpoint le_value (b : bytes) : Z :=
  match b with
  | [] => 0
  | x :: b' => Z_of_byte x + 256 * le_value b'
  end.

(** Unsigned field of [w] bytes: formats [<B] (1), [<H] (2), [<I] (4),
    [<Q] (8). A value outside the field's range raises [struct.error]. *)
Definition pack_uint (w : nat) (v : Z) : result bytes :=
  if (0 <=? v) && (v <? 256 ^ Z.of_nat w) then Ok (le_bytes w v)
  else Raise StructError.

Definition pack_B := pack_uint 1.
Definition pack_H := pack_uint 2.
Definition pack_I := pack_uint 4.
Definition pack_Q := pack_uint 8.

(** Signed 32-bit field, format [<i], two's complement. *)
Definition pack_i (v : Z) : result bytes :=
  if (- 2 ^ 31 <=? v) && (v <? 2 ^ 31) then Ok (le_bytes 4 (v mod 2 ^ 32))
  else Raise StructError.

(** [struct.pack("<HH", a, b)] and [struct.pack("<II", a, b)] *)
Definition pack_HH (a b : Z) : result bytes :=
  x ← pack_H a; y ← pack_H b; Ok (x ++ y).

Definition pack_II (a b : Z) : result bytes :=
  x ← pack_I a; y ← pack_I b; Ok (x ++ y).

(** [struct.pack("<128I", *l)]: exactly 128 arguments are required. *)
Definition pack_128I (l : list Z) : result bytes :=
  if negb (len l =? 128) then Raise StructError
  else for_each l [] (fun acc v => x ← pack_I v; Ok (acc ++ x)).

(** ** Text encodings *)

(** One code point in UTF-16-LE. A lone surrogate cannot be encoded; a
    value that is no code point is not a Python character at all. *)
Definition utf16_le_char (c : Z) : result bytes :=
  if (c <? 0) || (0x10FFFF <? c) then Raise UnicodeEncodeError
  else if (0xD800 <=? c) && (c <=? 0xDFFF) then Raise UnicodeEncodeError
  else if c <? 0x10000 then Ok (le_bytes 2 c)
  else Ok (le_bytes 2 (0xD800 + (c - 0x10000) / 1024)
           ++ le_bytes 2 (0xDC00 + (c - 0x10000) mod 1024)).

(** [name.encode("utf-16-le")] *)
Definition encode_utf16_le (s : str) : result bytes :=
  for_each s [] (fun acc c => x ← utf16_le_char c; Ok (acc ++ x)).

(** [text.encode("latin-1", errors="replace")]: what Latin-1 lacks
    becomes a question mark. *)
Definition encode_latin1_replace (s : str) : bytes :=
  map (fun c => if (0 <=? c) && (c <? 256) then byte_of_Z c else "?"%byte) s.

(** A Python literal of ASCII characters. *)
Definition lit (s : string) : str :=
  map (fun a => Z.of_nat (nat_of_ascii a)) (list_ascii_of_string s).

(** ** OLE2 Compound File writer *)

Definition FREESECT   : Z := 0xFFFFFFFF.
Definition ENDOFCHAIN : Z := 0xFFFFFFFE.
Definition FATSECT    : Z := 0xFFFFFFFD.
Definition NOSTREAM   : Z := 0xFFFFFFFF.
Definition SECTOR     : Z := 512.

(** [_dir_entry(name, obj_type, start, size, child, left, right)]; the
    callers that leave [child], [left] or [right] out pass [NOSTREAM]. *)
Definition _dir_entry (name : str) (obj_type start size child left right : Z)
    : result bytes :=
  name_u ← encode_utf16_le name;
  let name_len := len name_u + 2 in
  let name_field := ljust (name_u ++ [zero; zero]) 64 zero in
  let e := name_field in
  x ← pack_H name_len;      let e := e ++ x in
  x ← pack_B obj_type;      let e := e ++ x in
  x ← pack_B 1;             let e := e ++ x in
  x ← pack_I left;          let e := e ++ x in
  x ← pack_I right;         let e := e ++ x in
  x ← pack_I child;         let e := e ++ x in
  let e := e ++ bytes_mul [zero] 16 in
  x ← pack_I 0;             let e := e ++ x in
  x ← pack_Q 0;             let e := e ++ x in
  x ← pack_Q 0;             let e := e ++ x in
  x ← pack_I start;         let e := e ++ x in
  x ← pack_I size;          let e := e ++ x in
  x ← pack_I 0;             let e := e ++ x in
  _ ← assert (len e =? 128);
  Ok e.

(** A stream of the input list: [(name, data_bytes)]. *)
Abbreviation stream := (str * bytes)%type.

Definition MINIFAT_SECTOR : Z := 2.
Definition DATA_START     : Z := 3.

(** [max(1, -(-len(data) // SECTOR))]: the sectors reserved for a payload. *)
Definition nsectors (data : bytes) : Z :=
  Z.max 1 (- ((- len data) / SECTOR)).

(** The first loop of [build_ole2]: the list [sector_starts] and the final
    value of [cur]. *)
Definition assign_sectors (streams : list stream) : list Z * Z :=
  fold_left
    (fun '(sector_starts, cur) '(_, data) =>
       (sector_starts ++ [cur], cur + nsectors data))
    streams ([], DATA_START).

(** The block [# FAT] of [build_ole2], up to the list [fat]. *)
Definition build_fat (streams : list stream) (sector_starts : list Z)
    : result (list Z) :=
  let fat := replicate 128 FREESECT in
  fat ← set_item fat 0 FATSECT;
  fat ← set_item fat 1 ENDOFCHAIN;
  fat ← set_item fat MINIFAT_SECTOR ENDOFCHAIN;
  for_each (enumerate streams) fat (fun fat '(i, (_, data)) =>
    let n := nsectors data in
    s ← get_item sector_starts i;
    for_each (range n) fat (fun fat j =>
      set_item fat (s + j) (if j <? n - 1 then s + j + 1 else ENDOFCHAIN))).

(** [while len(entries) < 4: entries.append(b"\x00" * 128)]. The loop body
    makes [entries] one longer, so four rounds always reach the exit. *)
Fixpoint pad_entries (rounds : nat) (entries : list bytes) : list bytes :=
  match rounds with
  | O => entries
  | S r =>
      if len entries <? 4
      then pad_entries r (entries ++ [bytes_mul [zero] 128])
      else entries
  end.

(** The block [# Directory] of [build_ole2]. *)
Definition build_dir (streams : list stream) (sector_starts : list Z)
    : result bytes :=
  let n := len streams in
  root ← _dir_entry (lit "Root Entry") 5 ENDOFCHAIN 0
           (if n =? 0 then NOSTREAM else 1) NOSTREAM NOSTREAM;
  let entries := [root] in
  entries ← for_each (enumerate streams) entries (fun entries '(i, (name, data)) =>
    let right := if i + 1 <? n then i + 2 else NOSTREAM in
    s ← get_item sector_starts i;
    e ← _dir_entry name 2 s (len data) NOSTREAM NOSTREAM right;
    Ok (entries ++ [e]));
  let entries := pad_entries 4 entries in
  let dir_sector := concat entries in
  _ ← assert (len dir_sector =? SECTOR);
  Ok dir_sector.

(** The block [# Header (512 bytes)] of [build_ole2]. *)
Definition build_hdr : result bytes :=
  let hdr := map byte_of_Z [0xD0; 0xCF; 0x11; 0xE0; 0xA1; 0xB1; 0x1A; 0xE1] in
  let hdr := hdr ++ bytes_mul [zero] 16 in
  x ← pack_HH 0x003E 0x0003;     let hdr := hdr ++ x in
  x ← pack_H 0xFFFE;             let hdr := hdr ++ x in
  x ← pack_HH 0x0009 0x0006;     let hdr := hdr ++ x in
  let hdr := hdr ++ bytes_mul [zero] 6 in
  x ← pack_I 0;                  let hdr := hdr ++ x in
  x ← pack_I 1;                  let hdr := hdr ++ x in
  x ← pack_I 1;                  let hdr := hdr ++ x in
  x ← pack_I 0;                  let hdr := hdr ++ x in
  x ← pack_I 0x1000;             let hdr := hdr ++ x in
  x ← pack_I MINIFAT_SECTOR;     let hdr := hdr ++ x in
  x ← pack_I 1;                  let hdr := hdr ++ x in
  x ← pack_I ENDOFCHAIN;         let hdr := hdr ++ x in
  x ← pack_I 0;                  let hdr := hdr ++ x in
  x ← pack_I 0;                  let hdr := hdr ++ x in
  x ← pack_I FREESECT;           let hdr := hdr ++ bytes_mul x 108 in
  _ ← assert (len hdr =? SECTOR);
  Ok hdr.

(** The block [# Stream data (padded to sector boundary)]. *)
Definition build_body (streams : list stream) : bytes :=
  fold_left
    (fun body '(_, data) =>
       let rem := len data mod SECTOR in
       body ++ data ++ (if rem =? 0 then [] else bytes_mul [zero] (SECTOR - rem)))
    streams [].

Definition build_ole2 (streams : list stream) : result bytes :=
  let '(sector_starts, cur) := assign_sectors streams in
  fat ← build_fat streams sector_starts;
  fat_sector ← pack_128I fat;
  minifat_sector ← pack_128I (replicate 128 FREESECT);
  dir_sector ← build_dir streams sector_starts;
  hdr ← build_hdr;
  let body := build_body streams in
  Ok (hdr ++ fat_sector ++ dir_sector ++ minifat_sector ++ body).

(** ** OLE2 SummaryInformation property set *)

Definition VT_I4    : Z := 0x0003.
Definition VT_LPSTR : Z := 0x001E.

Definition _FMTID_SUMMARY : bytes :=
  map byte_of_Z
    [0xE0; 0x85; 0x9F; 0xF2;
     0xF9; 0x4F;
     0x68; 0x10;
     0xAB; 0x91; 0x08; 0x00; 0x2B; 0x27; 0xB3; 0xD9].

Definition SECTION_OFFSET : Z := 48.

Definition _prop_i4 (pid value : Z) : result (Z * bytes) :=
  t ← pack_H VT_I4;
  v ← pack_i value;
  Ok (pid, t ++ v).

Definition _prop_str (pid : Z) (text : str) : result (Z * bytes) :=
  let data := encode_latin1_replace text ++ [zero] in
  let data :=
    if len data mod 4 =? 0 then data
    else data ++ bytes_mul [zero] (4 - len data mod 4) in
  t ← pack_H VT_LPSTR;
  c ← pack_I (len data);
  Ok (pid, t ++ c ++ data).

(** The list [props] of [make_summary_stream(page_count, title, author)]. *)
Definition summary_props (page_count : Z) (title author : str)
    : result (list (Z * bytes)) :=
  let props : list (Z * bytes) := [] in
  props ← (if bool_decide (title = []) then Ok props
           else p ← _prop_str 0x02 title; Ok (props ++ [p]));
  props ← (if bool_decide (author = []) then Ok props
           else p ← _prop_str 0x04 author; Ok (props ++ [p]));
  p ← _prop_i4 0x0E page_count;
  Ok (props ++ [p]).

(** One round of the loop that assigns the offsets. *)
Definition offset_step (st : list Z * Z) (p : Z * bytes) : list Z * Z :=
  let '(offsets, off) := st in
  let '(_, val) := p in
  let offsets := offsets ++ [off] in
  let off := off + len val in
  let off := Z.land (off + 3) (Z.lnot 3) in
  (offsets, off).

(** One round of the loop that emits the values of [n] properties. *)
Definition value_step (n : Z) (prop_set : bytes) (p : Z * (Z * bytes)) : bytes :=
  let '(i, (_, val)) := p in
  let prop_set := prop_set ++ val in
  if i <? n - 1
  then prop_set ++ bytes_mul [zero] ((4 - len val mod 4) mod 4)
  else prop_set.

(** The block [# Build PropertySet section]. *)
Definition build_prop_set (props : list (Z * bytes)) : result bytes :=
  let id_offset_size := 8 * len props in
  let header_size := 8 + id_offset_size in
  let '(offsets, off) := fold_left offset_step props ([], header_size) in
  prop_set ← pack_II off (len props);
  prop_set ← for_each (zip props offsets) prop_set
    (fun prop_set '((pid, _), o) => x ← pack_II pid o; Ok (prop_set ++ x));
  Ok (fold_left (value_step (len props)) (enumerate props) prop_set).

(** The block [# Stream header (48 bytes)]. *)
Definition build_stream_header : result bytes :=
  stream ← pack_HH 0xFFFE 0x0000;
  x ← pack_I 0x00020006;         let stream := stream ++ x in
  let stream := stream ++ bytes_mul [zero] 16 in
  x ← pack_I 1;                  let stream := stream ++ x in
  let stream := stream ++ _FMTID_SUMMARY in
  x ← pack_I SECTION_OFFSET;     let stream := stream ++ x in
  _ ← assert (len stream =? SECTION_OFFSET);
  Ok stream.

(** [make_summary_stream(page_count, title, author)]; a caller that leaves
    [title] or [author] out passes the default, the empty string. *)
Definition make_summary_stream (page_count : Z) (title author : str)
    : result bytes :=
  props ← summary_props page_count title author;
  prop_set ← build_prop_set props;
  stream ← build_stream_header;
  Ok (stream ++ prop_set).

(** A call of [make_summary_stream] with [title] or [author] given or left
    out. *)
Definition call_make_summary_stream (page_count : Z) (title author : option str)
    : result bytes :=
  make_summary_stream page_count (default [] title) (default [] author).

(** ** The legacy fixtures

    [make_doc_10page] and [make_ppt_5slide] up to the bytes they write to
    the fixture file. *)

Definition doc_summary : result bytes :=
  summary ← make_summary_stream 10 (lit "Legacy Word Test") (lit "DocReader Tests");
  Ok (ljust summary 4096 zero).

Definition make_doc_10page : result bytes :=
  summary ← doc_summary;
  build_ole2 [(5 :: lit "SummaryInformation", summary)].

Definition pack_HHI (a b c : Z) : result bytes :=
  x ← pack_H a; y ← pack_H b; z ← pack_I c; Ok (x ++ y ++ z).

Definition ppt_slide_stream : result bytes :=
  slide_stream ← for_each (range 5) [] (fun slide_stream _ =>
    x ← pack_HHI 0x000F 0x03E8 0; Ok (slide_stream ++ x));
  Ok (ljust slide_stream 4096 zero).

Definition make_ppt_5slide : result bytes :=
  slide_stream ← ppt_slide_stream;
  build_ole2 [(lit "PowerPoint Document", slide_stream)].

(** ** Reading an image back *)

(** [img[off : off + n]] *)
Definition slice (img : bytes) (off n : nat) : bytes := take n (drop off img).

Definition u8_at (img : bytes) (off : nat) : Z := le_value (slice img off 1).
Definition u16_at (img : bytes) (off : nat) : Z := le_value (slice img off 2).
Definition u32_at (img : bytes) (off : nat) : Z := le_value (slice img off 4).

(** The header is the first 512 bytes; sector [k] follows it at byte
    [512 * (k + 1)]. *)
Definition header_of (img : bytes) : bytes := slice img 0 512.
Definition sector_of (img : bytes) (k : nat) : bytes :=
  slice img (512 * (k + 1)) 512.

(** FAT entry [i]: sector 0 is the FAT. *)
Definition fat_entry (img : bytes) (i : Z) : Z :=
  u32_at (sector_of img 0) (4 * Z.to_nat i).

(** Mini-FAT entry [i]: sector 2. *)
Definition minifat_entry (img : bytes) (i : Z) : Z :=
  u32_at (sector_of img 2) (4 * Z.to_nat i).

(** Directory entry [k]: sector 1 holds the directory. *)
Definition dir_entry_of (img : bytes) (k : nat) : bytes :=
  slice (sector_of img 1) (128 * k) 128.

Definition entry_name_field (e : bytes) : bytes := slice e 0 64.
Definition entry_name_len (e : bytes) : Z := u16_at e 64.
Definition entry_type (e : bytes) : Z := u8_at e 66.
Definition entry_left (e : bytes) : Z := u32_at e 68.
Definition entry_right (e : bytes) : Z := u32_at e 72.
Definition entry_child (e : bytes) : Z := u32_at e 76.
Definition entry_start (e : bytes) : Z := u32_at e 116.
Definition entry_size (e : bytes) : Z := u32_at e 120.

(** ** Vocabulary of the properties *)

(** The list [sector_starts] and the final [cur] of [build_ole2]: [cur] is
    the number of sectors the FAT accounts for, the three reserved ones
    included. *)
Definition sector_starts (streams : list stream) : list Z :=
  fst (assign_sectors streams).
Definition total_sectors (streams : list stream) : Z :=
  snd (assign_sectors streams).

Fixpoint sectors_sum (streams : list stream) : Z :=
  match streams with
  | [] => 0
  | (_, data) :: rest => nsectors data + sectors_sum rest
  end.

Fixpoint starts_from (cur : Z) (streams : list stream) : list Z :=
  match streams with
  | [] => []
  | (_, data) :: rest => cur :: starts_from (cur + nsectors data) rest
  end.

(** UTF-16 code units of a name, and the names UTF-16 can encode. *)
Definition utf16_units (name : str) : Z :=
  fold_right (fun c acc => (if c <? 0x10000 then 1 else 2) + acc) 0 name.

Definition is_scalar (c : Z) : bool :=
  (0 <=? c) && (c <=? 0x10FFFF) && negb ((0xD800 <=? c) && (c <=? 0xDFFF)).

Definition valid_name (name : str) : bool :=
  forallb is_scalar name && (utf16_units name <=? 31).

(** The capacity of the one-FAT-sector, one-directory-sector layout: at
    most 3 streams, named within 31 UTF-16 code units, and at most 125
    data sectors after the 3 reserved ones. *)
Definition within_capacity (streams : list stream) : bool :=
  (len streams <=? 3)
  && forallb (fun s : stream => valid_name (fst s)) streams
  && (total_sectors streams <=? 128).

(** A FAT value is a marker or the index of a data sector below [bound]. *)
Definition fat_value_ok (bound v : Z) : Prop :=
  v = FREESECT \/ v = ENDOFCHAIN \/ v = FATSECT \/ 3 <= v < bound.

(** A reader's walk along the chain that starts at sector [s]; [None] when
    no ENDOFCHAIN is met within [fuel] steps. *)
Fixpoint chain_from (fuel : nat) (img : bytes) (s : Z) : option (list Z) :=
  match fuel with
  | O => None
  | S f =>
      if s =? ENDOFCHAIN then Some []
      else match chain_from f img (fat_entry img s) with
           | Some c => Some (s :: c)
           | None => None
           end
  end.

Definition follow_chain (img : bytes) (s : Z) : option (list Z) :=
  chain_from 129 img s.

(** The list [fat] after the three reserved entries are set. *)
Definition fat_reserved : list Z :=
  <[2%nat:=ENDOFCHAIN]> (<[1%nat:=ENDOFCHAIN]> (<[0%nat:=FATSECT]> (replicate 128 FREESECT))).

(** The value the FAT loop stores for sector [j] of a run of [n] sectors
    that starts at [s]. *)
Definition chain_value (s n j : Z) : Z :=
  if j <? n - 1 then s + j + 1 else ENDOFCHAIN.

(** The header [build_ole2] emits, and its Mini-FAT sector: both are the
    same for every input. *)
Definition header_bytes : bytes :=
  Eval vm_compute in
    match build_hdr with Ok h => h | Raise _ => [] end.

Definition minifat_bytes : bytes :=
  Eval vm_compute in
    match pack_128I (replicate 128 FREESECT) with Ok b => b | Raise _ => [] end.

Definition in_u32 (v : Z) : Prop := 0 <= v < 2 ^ 32.

(** The 128 bytes [_dir_entry] assembles around the encoded name [name_u]. *)
Definition entry_bytes (name_u : bytes) (obj_type start size child left right : Z)
    : bytes :=
  ljust (name_u ++ [zero; zero]) 64 zero
  ++ le_bytes 2 (len name_u + 2) ++ le_bytes 1 obj_type ++ le_bytes 1 1
  ++ le_bytes 4 left ++ le_bytes 4 right ++ le_bytes 4 child
  ++ replicate 16 zero ++ le_bytes 4 0 ++ le_bytes 8 0 ++ le_bytes 8 0
  ++ le_bytes 4 start ++ le_bytes 4 size ++ le_bytes 4 0.

(** The arguments of [_dir_entry] that fit their fields. *)
Definition fields_in_range (obj_type start size child left right : Z) : Prop :=
  0 <= obj_type < 256 /\ in_u32 start /\ in_u32 size
  /\ in_u32 child /\ in_u32 left /\ in_u32 right.

(** The UTF-16-LE bytes of a name that can be encoded. *)
Definition name_bytes (name : str) : bytes :=
  match encode_utf16_le name with Ok u => u | Raise _ => [] end.

(** The Root entry, and the entry of stream [k], as [build_ole2] makes
    them for the stream list [streams]. *)
Definition root_entry (streams : list stream) : bytes :=
  entry_bytes (name_bytes (lit "Root Entry")) 5 ENDOFCHAIN 0
    (if len streams =? 0 then NOSTREAM else 1) NOSTREAM NOSTREAM.

Definition stream_entry (streams : list stream) (k : nat) (name : str)
    (data : bytes) : bytes :=
  entry_bytes (name_bytes name) 2
    (3 + sectors_sum (take k streams)) (len data)
    NOSTREAM NOSTREAM
    (if Z.of_nat k + 1 <? len streams then Z.of_nat k + 2 else NOSTREAM).

(** What the body loop appends for one payload. *)
Definition pad_sector (data : bytes) : bytes :=
  let rem := len data mod SECTOR in
  data ++ (if rem =? 0 then [] else bytes_mul [zero] (SECTOR - rem)).

(** [ceil(a / b)] *)
Definition ceil_div (a b : Z) : Z := (a + b - 1) / b.

(** [Σ ceil(len(payload_i) / 512) * 512] *)
Definition body_size (streams : list stream) : Z :=
  fold_right (fun s acc => ceil_div (len (snd s)) 512 * 512 + acc) 0 streams.

(** Header fields, by their byte offsets. *)
Definition hdr_magic (img : bytes) : bytes := slice (header_of img) 0 8.
Definition hdr_clsid (img : bytes) : bytes := slice (header_of img) 8 16.
Definition hdr_minor_version (img : bytes) : Z := u16_at (header_of img) 24.
Definition hdr_major_version (img : bytes) : Z := u16_at (header_of img) 26.
Definition hdr_byte_order (img : bytes) : Z := u16_at (header_of img) 28.
Definition hdr_sector_shift (img : bytes) : Z := u16_at (header_of img) 30.
Definition hdr_mini_sector_shift (img : bytes) : Z := u16_at (header_of img) 32.
Definition hdr_dir_sectors (img : bytes) : Z := u32_at (header_of img) 40.
Definition hdr_fat_sectors (img : bytes) : Z := u32_at (header_of img) 44.
Definition hdr_first_dir_sector (img : bytes) : Z := u32_at (header_of img) 48.
Definition hdr_mini_cutoff (img : bytes) : Z := u32_at (header_of img) 56.
Definition hdr_first_minifat_sector (img : bytes) : Z := u32_at (header_of img) 60.
Definition hdr_minifat_sectors (img : bytes) : Z := u32_at (header_of img) 64.

Definition magic : bytes :=
  map byte_of_Z [0xD0; 0xCF; 0x11; 0xE0; 0xA1; 0xB1; 0x1A; 0xE1].

(** The image of the empty stream list. *)
Definition empty_image : bytes :=
  Eval vm_compute in
    match build_ole2 [] with Ok img => img | Raise _ => [] end.

(** The fixed header fields, with the two version fields as parameters:
    [minor] is the 16-bit field at byte 24, [major] the one at byte 26. *)
Definition header_fields (img : bytes) (minor major : Z) : Prop :=
  length (header_of img) = 512%nat
  /\ hdr_magic img = magic
  /\ hdr_clsid img = replicate 16 zero
  /\ hdr_minor_version img = minor
  /\ hdr_major_version img = major
  /\ hdr_byte_order img = 0xFFFE
  /\ hdr_sector_shift img = 9
  /\ hdr_mini_sector_shift img = 6
  /\ hdr_dir_sectors img = 0
  /\ hdr_fat_sectors img = 1
  /\ hdr_first_dir_sector img = 1.

(** The name a directory entry carries, as UTF-16 code units without the
    terminator. *)
Fixpoint utf16_code_units (b : bytes) : list Z :=
  match b with
  | x :: y :: b' => (Z_of_byte x + 256 * Z_of_byte y) :: utf16_code_units b'
  | _ => []
  end.

Definition entry_name (e : bytes) : list Z :=
  utf16_code_units (slice e 0 (Z.to_nat (entry_name_len e - 2))).

(** The bytes a reader finds for stream [k] when it follows the chain of
    directory entry [k + 1] through the FAT. *)
Definition stored_bytes (img : bytes) (k : nat) : option Z :=
  match follow_chain img (entry_start (dir_entry_of img (S k))) with
  | Some chain => Some (512 * len chain)
  | None => None
  end.

(** The single-stream input of 4096 zero bytes, and its image. *)
Definition zero_ppt_streams : list stream :=
  [(lit "PowerPoint Document", replicate 4096 zero)].

Definition zero_ppt_image : bytes :=
  Eval vm_compute in
    match build_ole2 zero_ppt_streams with Ok img => img | Raise _ => [] end.

(** A one-byte stream, and its image. *)
Definition tiny_streams : list stream := [(lit "A", [zero])].

Definition tiny_image : bytes :=
  Eval vm_compute in
    match build_ole2 tiny_streams with Ok img => img | Raise _ => [] end.

(** The property-set section of a summary stream: it starts at byte 48. *)
Definition section_of (s : bytes) : bytes := drop 48 s.
Definition section_size_field (s : bytes) : Z := u32_at (section_of s) 0.
Definition section_count (s : bytes) : Z := u32_at (section_of s) 4.
Definition section_ids (s : bytes) : list Z :=
  map (fun k => u32_at (section_of s) (8 + 8 * k))
      (seq 0 (Z.to_nat (section_count s))).
Definition section_offsets (s : bytes) : list Z :=
  map (fun k => u32_at (section_of s) (12 + 8 * k))
      (seq 0 (Z.to_nat (section_count s))).

Definition in_i32 (v : Z) : Prop := - 2 ^ 31 <= v < 2 ^ 31.

(** The value bytes [_prop_str] and [_prop_i4] build. *)
Definition str_data (text : str) : bytes :=
  let data := encode_latin1_replace text ++ [zero] in
  if len data mod 4 =? 0 then data
  else data ++ bytes_mul [zero] (4 - len data mod 4).

Definition str_value (text : str) : bytes :=
  le_bytes 2 VT_LPSTR ++ le_bytes 4 (len (str_data text)) ++ str_data text.

Definition i4_value (value : Z) : bytes :=
  le_bytes 2 VT_I4 ++ le_bytes 4 (value mod 2 ^ 32).

(** The properties [make_summary_stream] lists when nothing raises. *)
Definition expected_props (page_count : Z) (title author : str)
    : list (Z * bytes) :=
  (if bool_decide (title = []) then [] else [(0x02, str_value title)])
  ++ (if bool_decide (author = []) then [] else [(0x04, str_value author)])
  ++ [(0x0E, i4_value page_count)].

(** The table of (property ID, offset) pairs. *)
Definition id_table (l : list (Z * bytes * Z)) : bytes :=
  concat (map (fun '((pid, _), o) => le_bytes 4 pid ++ le_bytes 4 o) l).

Definition stream_header_bytes : bytes :=
  Eval vm_compute in
    match build_stream_header with Ok h => h | Raise _ => [] end.

(** An upper bound of the section size: every value and its alignment pad. *)
Definition values_bound (props : list (Z * bytes)) : Z :=
  fold_right (fun p acc => len (snd p) + 3 + acc) 0 props.

(** The summary stream of [page_count = 10] with no title and no author. *)
Definition summary10 : bytes :=
  Eval vm_compute in
    match make_summary_stream 10 [] [] with Ok s => s | Raise _ => [] end.

(** The summary stream of [page_count = 7], title "T" and author "A". *)
Definition summary7 : bytes :=
  Eval vm_compute in
    match make_summary_stream 7 (lit "T") (lit "A") with
    | Ok s => s
    | Raise _ => []
    end.

(** The UTF-16 code units of a code point and of a name. *)
Definition code_units (c : Z) : list Z :=
  if c <? 0x10000 then [c]
  else [0xD800 + (c - 0x10000) / 1024; 0xDC00 + (c - 0x10000) mod 1024].

Definition name_code_units (name : str) : list Z := flat_map code_units name.

(** How many of the payloads are empty. *)
Definition empty_payloads (streams : list stream) : Z :=
  len (filter (fun s : stream => snd s = []) streams).

(** More header fields, by their byte offsets; DIFAT slot [i] is at byte
    [76 + 4 * i]. *)
Definition hdr_reserved (img : bytes) : bytes := slice (header_of img) 34 6.
Definition hdr_transaction (img : bytes) : Z := u32_at (header_of img) 52.
Definition hdr_difat_start (img : bytes) : Z := u32_at (header_of img) 68.
Definition hdr_difat_sectors (img : bytes) : Z := u32_at (header_of img) 72.
Definition hdr_difat (img : bytes) (i : nat) : Z := u32_at (header_of img) (76 + 4 * i).

(** ** A reader of the property set

    The layout the source states for its consumer: a VT_I4 value is the
    2-byte type and a 4-byte integer; a VT_LPSTR value is the 2-byte type, a
    4-byte count and that many bytes, the text and its null padding. *)
Inductive prop_value : Type :=
  | PInt (v : Z)
  | PStr (b : bytes).

Definition signed32 (v : Z) : Z := if v <? 2 ^ 31 then v else v - 2 ^ 32.

Definition read_value (sec : bytes) (o : nat) : option prop_value :=
  let t := u16_at sec o in
  if t =? VT_I4 then Some (PInt (signed32 (u32_at sec (o + 2))))
  else if t =? VT_LPSTR
       then Some (PStr (slice sec (o + 6) (Z.to_nat (u32_at sec (o + 2)))))
       else None.

Fixpoint index_of (pid : Z) (ids : list Z) : option nat :=
  match ids with
  | [] => None
  | x :: rest =>
      if x =? pid then Some O
      else match index_of pid rest with
           | Some j => Some (S j)
           | None => None
           end
  end.

(** The value of property [pid] of a summary stream: the ID is looked up in
    the table and the value is read at its offset. *)
Definition read_property (s : bytes) (pid : Z) : option prop_value :=
  match index_of pid (section_ids s) with
  | Some j =>
      match section_offsets s !! j with
      | Some o => read_value (section_of s) (Z.to_nat o)
      | None => None
      end
  | None => None
  end.

(** The bytes before the first null, and their Latin-1 characters. *)
Fixpoint cstring (b : bytes) : bytes :=
  match b with
  | [] => []
  | x :: rest => if Z_of_byte x =? 0 then [] else x :: cstring rest
  end.

Definition decode_latin1 (b : bytes) : str := map Z_of_byte b.

Definition read_text (s : bytes) (pid : Z) : option str :=
  match read_property s pid with
  | Some (PStr b) => Some (decode_latin1 (cstring b))
  | _ => None
  end.

(** ** The patch of the legacy XLS fixture

    [make_xls_3sheet], after [xlwt] has saved the file, opens it with
    [r+b], reads the 4 bytes at offset 60 and overwrites them with FREESECT
    when they are ENDOFCHAIN. [patch_minifat_start] is that step on the bytes
    of the file. *)

(** [struct.unpack("<I", b)[0]]: the buffer must hold exactly 4 bytes. *)
Definition unpack_I (b : bytes) : result Z :=
  if len b =? 4 then Ok (le_value b) else Raise StructError.

Definition patch_minifat_start (file : bytes) : result bytes :=
  let data := slice file 60 4 in
  current ← unpack_I data;
  if current =? 0xFFFFFFFE
  then x ← pack_I 0xFFFFFFFF; Ok (take 60 file ++ x ++ drop 64 file)
  else Ok file.

(** A file whose header has the sentinel the patch looks for. *)
Definition sentinel_file : bytes :=
  replicate 60 zero ++ le_bytes 4 ENDOFCHAIN ++ replicate 8 zero.

(** ** Bytes and little-endian fields *)

Ltac Zify.zify_post_hook ::= Z.to_euclidean_division_equations.

Lemma Z_of_byte_of_Z (z : Z) : Z_of_byte (byte_of_Z z) = z mod 256.
Proof.
  unfold Z_of_byte, byte_of_Z.
  assert (Hr : 0 <= z mod 256 < 256) by (apply Z.mod_pos_bound; lia).
  destruct (Byte.of_N (Z.to_N (z mod 256))) as [b|] eqn:E.
  - apply Byte.to_of_N in E. rewrite E. lia.
  - apply Byte.of_N_None_iff in E. lia.
Qed.

Lemma Z_of_byte_range (b : byte) : 0 <= Z_of_byte b < 256.
Proof.
  unfold Z_of_byte. pose proof (Byte.to_N_bounded b). lia.
Qed.

Lemma le_bytes_length (w : nat) (v : Z) : length (le_bytes w v) = w.
Proof.
  revert v. induction w as [|w IH]; intros v; simpl; [done|].
  by rewrite IH.
Qed.

Lemma le_value_le_bytes (w : nat) (v : Z) :
  0 <= v < 256 ^ Z.of_nat w -> le_value (le_bytes w v) = v.
Proof.
  revert v. induction w as [|w IH]; intros v Hv.
  - simpl in *. lia.
  - cbn [le_bytes le_value]. rewrite Z_of_byte_of_Z, Z.mod_mod by lia.
    rewrite Nat2Z.inj_succ, Z.pow_succ_r in Hv by lia.
    rewrite IH; [lia|]. split; [lia|].
    apply Z.div_lt_upper_bound; lia.
Qed.

Lemma pack_uint_Ok (w : nat) (v : Z) (b : bytes) :
  pack_uint w v = Ok b -> b = le_bytes w v /\ 0 <= v < 256 ^ Z.of_nat w.
Proof.
  unfold pack_uint. intros H.
  destruct (0 <=? v) eqn:E1; destruct (v <? 256 ^ Z.of_nat w) eqn:E2;
    simpl in H; inversion H; subst. split; [done|lia].
Qed.

Lemma pack_uint_in_range (w : nat) (v : Z) :
  0 <= v < 256 ^ Z.of_nat w -> pack_uint w v = Ok (le_bytes w v).
Proof.
  intros Hv. unfold pack_uint.
  destruct (0 <=? v) eqn:E1; destruct (v <? 256 ^ Z.of_nat w) eqn:E2;
    simpl; try done; lia.
Qed.

Lemma pack_I_in_range (v : Z) :
  0 <= v < 2 ^ 32 -> pack_I v = Ok (le_bytes 4 v).
Proof. intros Hv. apply pack_uint_in_range. simpl. lia. Qed.

(** ** Slices *)

Lemma slice_length (img : bytes) (off n : nat) :
  (off + n <= length img)%nat -> length (slice img off n) = n.
Proof.
  intros H. unfold slice. rewrite length_take, length_drop. lia.
Qed.

Lemma slice_app_skip (a b : bytes) (off n : nat) :
  (length a <= off)%nat -> slice (a ++ b) off n = slice b (off - length a) n.
Proof.
  intros H. unfold slice. by rewrite drop_app_ge.
Qed.

Lemma slice_app_here (a b : bytes) (n : nat) :
  n = length a -> slice (a ++ b) 0 n = a.
Proof.
  intros ->. unfold slice. rewrite drop_0. by rewrite take_app_length.
Qed.

Lemma slice_app_at (a b c : bytes) (off n : nat) :
  off = length a -> n = length b -> slice (a ++ b ++ c) off n = b.
Proof.
  intros -> ->. unfold slice. by rewrite drop_app_length, take_app_length.
Qed.

Lemma slice_app_within (a b : bytes) (off n : nat) :
  (off + n <= length a)%nat -> slice (a ++ b) off n = slice a off n.
Proof.
  intros H. unfold slice. rewrite drop_app_le by lia.
  rewrite take_app_le; [done|]. rewrite length_drop. lia.
Qed.

Lemma slice_slice (img : bytes) (o1 n1 o2 n2 : nat) :
  (o2 + n2 <= n1)%nat ->
  slice (slice img o1 n1) o2 n2 = slice img (o1 + o2) n2.
Proof.
  intros H. unfold slice.
  rewrite (take_drop_commute (take n1 _)), take_take.
  replace ((o2 + n2) `min` n1)%nat with (o2 + n2)%nat by lia.
  by rewrite <- take_drop_commute, drop_drop.
Qed.

(** ** Loops *)

Ltac mstep := cbn [mbind result_bind mret result_ret assert].
Tactic Notation "mstep" "in" hyp(H) :=
  cbn [mbind result_bind mret result_ret assert] in H.

(** Partial correctness: an invariant kept by every round that returns
    holds of the final state when the loop returns. *)
Lemma for_each_inv {A S : Type} (body : S -> A -> result S)
    (I : list A -> S -> Prop) (l : list A) (s0 s' : S) :
  I [] s0 ->
  (forall pre x post s s1, l = pre ++ x :: post ->
     I pre s -> body s x = Ok s1 -> I (pre ++ [x]) s1) ->
  for_each l s0 body = Ok s' -> I l s'.
Proof.
  intros H0 Hstep.
  assert (G : forall post pre s, l = pre ++ post -> I pre s ->
              for_each post s body = Ok s' -> I l s').
  { induction post as [|x post IH]; intros pre s Hl HI Hrun.
    - simpl in Hrun. inversion Hrun; subst. by rewrite app_nil_r.
    - simpl in Hrun. destruct (body s x) as [s1|e] eqn:Hb; [|done].
      simpl in Hrun. apply (IH (pre ++ [x]) s1).
      + by rewrite <- app_assoc.
      + by eapply Hstep.
      + done. }
  intros Hrun. by apply (G l [] s0).
Qed.

(** Total correctness: when every round returns and keeps the invariant,
    the loop returns. *)
Lemma for_each_total {A S : Type} (body : S -> A -> result S)
    (I : list A -> S -> Prop) (l : list A) (s0 : S) :
  I [] s0 ->
  (forall pre x post s, l = pre ++ x :: post -> I pre s ->
     exists s1, body s x = Ok s1 /\ I (pre ++ [x]) s1) ->
  exists s', for_each l s0 body = Ok s' /\ I l s'.
Proof.
  intros H0 Hstep.
  assert (G : forall post pre s, l = pre ++ post -> I pre s ->
              exists s', for_each post s body = Ok s' /\ I l s').
  { induction post as [|x post IH]; intros pre s Hl HI.
    - exists s. split; [done|]. by rewrite Hl, app_nil_r.
    - destruct (Hstep pre x post s Hl HI) as (s1 & Hb & HI1).
      destruct (IH (pre ++ [x]) s1) as (s' & Hrun & HI'); [by rewrite <- app_assoc|done|].
      exists s'. split; [|done]. simpl. by rewrite Hb. }
  by apply (G l [] s0).
Qed.

Lemma for_each_inv_n {A S : Type} (body : S -> A -> result S)
    (P : nat -> S -> Prop) (l : list A) (s0 s' : S) :
  P O s0 ->
  (forall m x s s1, l !! m = Some x -> P m s -> body s x = Ok s1 -> P (Datatypes.S m) s1) ->
  for_each l s0 body = Ok s' -> P (length l) s'.
Proof.
  intros H0 Hstep.
  apply (for_each_inv body (fun pre s => P (length pre) s)); [done|].
  intros pre x post s s1 Hl HP Hb.
  rewrite length_app. simpl. replace (length pre + 1)%nat with (Datatypes.S (length pre)) by lia.
  apply (Hstep _ x s); [|done|done].
  rewrite Hl. by rewrite list_lookup_middle.
Qed.

Lemma for_each_total_n {A S : Type} (body : S -> A -> result S)
    (P : nat -> S -> Prop) (l : list A) (s0 : S) :
  P O s0 ->
  (forall m x s, l !! m = Some x -> P m s ->
     exists s1, body s x = Ok s1 /\ P (Datatypes.S m) s1) ->
  exists s', for_each l s0 body = Ok s' /\ P (length l) s'.
Proof.
  intros H0 Hstep.
  apply (for_each_total body (fun pre s => P (length pre) s)); [done|].
  intros pre x post s Hl HP.
  destruct (Hstep (length pre) x s) as (s1 & Hb & HP1); [|done|].
  { rewrite Hl. by rewrite list_lookup_middle. }
  exists s1. split; [done|].
  rewrite length_app. simpl. by replace (length pre + 1)%nat with (Datatypes.S (length pre)) by lia.
Qed.

Lemma lookup_enumerate_from {A : Type} (k : Z) (l : list A) (m : nat) (x : Z * A) :
  enumerate_from k l !! m = Some x ->
  fst x = k + Z.of_nat m /\ l !! m = Some (snd x).
Proof.
  revert k m. induction l as [|a l IH]; intros k m H; [done|].
  destruct m as [|m]; simpl in H.
  - inversion H; subst. simpl. split; [lia|done].
  - apply IH in H as [H1 H2]. split; [lia|done].
Qed.

Lemma length_enumerate_from {A : Type} (k : Z) (l : list A) :
  length (enumerate_from k l) = length l.
Proof. revert k. induction l as [|a l IH]; intros k; simpl; [done|]. by rewrite IH. Qed.

(** ** Sector assignment *)

Lemma nsectors_pos (data : bytes) : 1 <= nsectors data.
Proof. unfold nsectors. lia. Qed.

Lemma nsectors_bound (data : bytes) : len data <= 512 * nsectors data.
Proof. unfold nsectors, SECTOR. lia. Qed.

Lemma sectors_sum_nonneg (streams : list stream) : 0 <= sectors_sum streams.
Proof.
  induction streams as [|[name data] rest IH]; simpl; [lia|].
  pose proof (nsectors_pos data). lia.
Qed.

Lemma sectors_sum_app (l1 l2 : list stream) :
  sectors_sum (l1 ++ l2) = sectors_sum l1 + sectors_sum l2.
Proof. induction l1 as [|[name data] rest IH]; simpl; lia. Qed.

Lemma sectors_sum_take_S (streams : list stream) (m : nat) name data :
  streams !! m = Some (name, data) ->
  sectors_sum (take (S m) streams) = sectors_sum (take m streams) + nsectors data.
Proof.
  intros H. rewrite (take_S_r _ _ _ H), sectors_sum_app. simpl. lia.
Qed.

Lemma sectors_sum_take_le (streams : list stream) (m : nat) :
  sectors_sum (take m streams) <= sectors_sum streams.
Proof.
  rewrite <- (take_drop m streams) at 2. rewrite sectors_sum_app.
  pose proof (sectors_sum_nonneg (drop m streams)). lia.
Qed.

Lemma sectors_sum_take_mono (streams : list stream) (k m : nat) :
  (k <= m)%nat -> sectors_sum (take k streams) <= sectors_sum (take m streams).
Proof.
  intros H. replace (take k streams) with (take k (take m streams)).
  - apply sectors_sum_take_le.
  - rewrite take_take. f_equal. lia.
Qed.

Lemma assign_sectors_fold (streams : list stream) (acc : list Z) (cur : Z) :
  fold_left
    (fun '(sector_starts, cur) '(_, data) =>
       (sector_starts ++ [cur], cur + nsectors data))
    streams (acc, cur)
  = (acc ++ starts_from cur streams, cur + sectors_sum streams).
Proof.
  revert acc cur. induction streams as [|[name data] rest IH]; intros acc cur; simpl.
  - rewrite app_nil_r. f_equal. lia.
  - rewrite IH, <- app_assoc. simpl. f_equal. lia.
Qed.

Lemma assign_sectors_eq (streams : list stream) :
  assign_sectors streams
  = (starts_from DATA_START streams, DATA_START + sectors_sum streams).
Proof. unfold assign_sectors. by rewrite assign_sectors_fold. Qed.

Lemma lookup_starts_from (cur : Z) (streams : list stream) (m : nat) x :
  streams !! m = Some x ->
  starts_from cur streams !! m = Some (cur + sectors_sum (take m streams)).
Proof.
  revert cur m. induction streams as [|[name data] rest IH]; intros cur m H; [done|].
  destruct m as [|m]; simpl in *.
  - f_equal. lia.
  - rewrite (IH _ _ H). f_equal. lia.
Qed.

Lemma length_starts_from (cur : Z) (streams : list stream) :
  length (starts_from cur streams) = length streams.
Proof.
  revert cur. induction streams as [|[name data] rest IH]; intros cur; simpl; [done|].
  by rewrite IH.
Qed.

Lemma get_item_lookup {A : Type} (l : list A) (m : nat) (x : A) :
  l !! m = Some x -> get_item l (Z.of_nat m) = Ok x.
Proof.
  intros H. pose proof (lookup_lt_Some _ _ _ H) as Hlt.
  unfold get_item, norm_index, len.
  destruct (0 <=? Z.of_nat m) eqn:E1; [|lia].
  destruct (Z.of_nat m <? Z.of_nat (length l)) eqn:E2; [|lia].
  simpl. by rewrite Nat2Z.id, H.
Qed.

Lemma get_item_Ok_elem {A : Type} (l : list A) (i : Z) (x : A) :
  get_item l i = Ok x -> x ∈ l.
Proof.
  unfold get_item. destruct (norm_index l i) as [k|]; [|done]. simpl.
  destruct (l !! k) eqn:E; [|done]. intros [= ->].
  by eapply list_elem_of_lookup_2.
Qed.

Lemma set_item_in_range {A : Type} (l : list A) (i : Z) (v : A) :
  0 <= i < len l -> set_item l i v = Ok (<[Z.to_nat i := v]> l).
Proof.
  intros H. unfold set_item, norm_index.
  destruct (0 <=? i) eqn:E1; [|lia]. destruct (i <? len l) eqn:E2; [|lia]. done.
Qed.

Lemma set_item_Ok_nonneg {A : Type} (l l' : list A) (i : Z) (v : A) :
  0 <= i -> set_item l i v = Ok l' ->
  i < len l /\ l' = <[Z.to_nat i := v]> l.
Proof.
  intros Hi. unfold set_item, norm_index.
  destruct (0 <=? i) eqn:E1; [|lia]. destruct (i <? len l) eqn:E2; simpl.
  - intros [= <-]. split; [lia|done].
  - destruct (- len l <=? i); simpl; [|done]. destruct (i <? 0) eqn:E3; [lia|done].
Qed.

(** ** The FAT *)

Lemma fat_value_ok_mono (b1 b2 v : Z) :
  b1 <= b2 -> fat_value_ok b1 v -> fat_value_ok b2 v.
Proof. unfold fat_value_ok. lia. Qed.

Lemma chain_loop_total (fat : list Z) (s n bound : Z) :
  3 <= s -> 1 <= n -> s + n <= len fat -> s + n <= bound ->
  Forall (fat_value_ok bound) fat ->
  exists fat',
    for_each (range n) fat (fun fat j =>
      set_item fat (s + j) (if j <? n - 1 then s + j + 1 else ENDOFCHAIN)) = Ok fat'
    /\ length fat' = length fat
    /\ Forall (fat_value_ok bound) fat'
    /\ forall i : nat,
         fat' !! i = if decide (s <= Z.of_nat i < s + n)
                     then Some (chain_value s n (Z.of_nat i - s))
                     else fat !! i.
Proof.
  intros Hs Hn Hlen Hb Hok.
  destruct (for_each_total_n
    (fun fat j => set_item fat (s + j) (if j <? n - 1 then s + j + 1 else ENDOFCHAIN))
    (fun m f => length f = length fat /\ Forall (fat_value_ok bound) f /\
       forall i : nat,
         f !! i = if decide (s <= Z.of_nat i < s + Z.of_nat m)
                  then Some (chain_value s n (Z.of_nat i - s))
                  else fat !! i)
    (range n) fat) as (fat' & Hrun & HL & HF & HS).
  - split; [done|]. split; [done|]. intros i. case_decide; [lia|done].
  - intros m x f Hx (HL & HF & HS).
    apply lookup_seqZ in Hx as [-> Hm].
    unfold len in Hlen.
    rewrite set_item_in_range by (unfold len; lia).
    eexists. split; [done|]. split; [by rewrite length_insert|].
    split.
    { apply Forall_insert; [done|]. unfold fat_value_ok.
      destruct (0 + Z.of_nat m <? n - 1) eqn:E; lia. }
    intros i. destruct (decide (i = Z.to_nat (s + (0 + Z.of_nat m)))) as [->|Hne].
    + rewrite list_lookup_insert_eq by lia.
      case_decide; [|lia]. unfold chain_value.
      replace (Z.of_nat (Z.to_nat (s + (0 + Z.of_nat m))) - s) with (0 + Z.of_nat m) by lia.
      destruct (0 + Z.of_nat m <? n - 1); f_equal; lia.
    + rewrite list_lookup_insert_ne by done. rewrite HS.
      repeat case_decide; try done; lia.
  - exists fat'. unfold range in HS. rewrite length_seqZ in HS.
    split; [done|]. split; [done|]. split; [done|].
    intros i. rewrite HS. rewrite Z2Nat.id by lia. done.
Qed.

Lemma chain_loop_inv (fat fat' : list Z) (s n : Z) :
  3 <= s ->
  for_each (range n) fat (fun fat j =>
    set_item fat (s + j) (if j <? n - 1 then s + j + 1 else ENDOFCHAIN)) = Ok fat' ->
  length fat' = length fat /\ forall i : nat, (i < 3)%nat -> fat' !! i = fat !! i.
Proof.
  intros Hs Hrun.
  apply (for_each_inv_n _
    (fun (_ : nat) f => length f = length fat /\
       forall i : nat, (i < 3)%nat -> f !! i = fat !! i)) in Hrun; [done|done|].
  intros m x f f1 Hx (HL & HS) Hb.
  apply lookup_seqZ in Hx as [-> Hm].
  apply set_item_Ok_nonneg in Hb as [_ ->]; [|lia].
  split; [by rewrite length_insert|].
  intros i Hi. rewrite list_lookup_insert_ne by lia. by apply HS.
Qed.

Lemma build_fat_unfold (streams : list stream) (starts : list Z) :
  build_fat streams starts =
  for_each (enumerate streams) fat_reserved (fun fat '(i, (_, data)) =>
    let n := nsectors data in
    s ← get_item starts i;
    for_each (range n) fat (fun fat j =>
      set_item fat (s + j) (if j <? n - 1 then s + j + 1 else ENDOFCHAIN))).
Proof. reflexivity. Qed.

Lemma fat_reserved_ok : Forall (fat_value_ok 3) fat_reserved.
Proof.
  unfold fat_reserved.
  repeat (apply Forall_insert; [|unfold fat_value_ok; tauto]).
  apply Forall_replicate. unfold fat_value_ok. tauto.
Qed.

Lemma starts_from_ge (cur : Z) (streams : list stream) :
  Forall (fun s => cur <= s) (starts_from cur streams).
Proof.
  revert cur. induction streams as [|[name data] rest IH]; intros cur; simpl; [done|].
  constructor; [lia|].
  eapply Forall_impl; [apply IH|]. simpl. intros s Hs.
  pose proof (nsectors_pos data). lia.
Qed.

(** Whatever the input, a FAT that is returned has 128 entries and keeps
    the three reserved ones. *)
Lemma build_fat_inv (streams : list stream) (fat : list Z) :
  build_fat streams (sector_starts streams) = Ok fat ->
  length fat = 128%nat /\ forall i : nat, (i < 3)%nat -> fat !! i = fat_reserved !! i.
Proof.
  rewrite build_fat_unfold. intros Hrun.
  apply (for_each_inv_n _
    (fun (_ : nat) f => length f = 128%nat /\
       forall i : nat, (i < 3)%nat -> f !! i = fat_reserved !! i)) in Hrun; [done|done|].
  intros m [i [name data]] f f1 Hx (HL & HS) Hb. simpl in Hb.
  destruct (get_item (sector_starts streams) i) as [s|] eqn:Hg; [|done]. simpl in Hb.
  assert (3 <= s) as Hs.
  { apply get_item_Ok_elem in Hg. unfold sector_starts in Hg.
    rewrite assign_sectors_eq in Hg. simpl in Hg.
    pose proof (starts_from_ge DATA_START streams) as HF.
    rewrite Forall_forall in HF. apply HF in Hg. unfold DATA_START in Hg. lia. }
  apply chain_loop_inv in Hb as [HL1 HS1]; [|done].
  split; [lia|]. intros k Hk. rewrite HS1 by done. by apply HS.
Qed.

(** Within capacity the FAT is returned, and it is the table of the
    contiguous chains. *)
Lemma build_fat_total (streams : list stream) :
  total_sectors streams <= 128 ->
  exists fat,
    build_fat streams (sector_starts streams) = Ok fat
    /\ length fat = 128%nat
    /\ Forall (fat_value_ok (total_sectors streams)) fat
    /\ (forall i : nat, (i < 3)%nat -> fat !! i = fat_reserved !! i)
    /\ (forall i : nat, total_sectors streams <= Z.of_nat i -> fat !! i = fat_reserved !! i)
    /\ (forall (k : nat) name data, streams !! k = Some (name, data) ->
          forall j, 0 <= j < nsectors data ->
            fat !! Z.to_nat (3 + sectors_sum (take k streams) + j)
            = Some (chain_value (3 + sectors_sum (take k streams)) (nsectors data) j)).
Proof.
  unfold total_sectors, sector_starts. rewrite assign_sectors_eq. unfold DATA_START. simpl.
  intros Hcap. rewrite build_fat_unfold.
  destruct (for_each_total_n
    (fun fat '(i, (_, data)) =>
       let n := nsectors data in
       s ← get_item (starts_from 3 streams) i;
       for_each (range n) fat (fun fat j =>
         set_item fat (s + j) (if j <? n - 1 then s + j + 1 else ENDOFCHAIN)))
    (fun m f => length f = 128%nat
       /\ Forall (fat_value_ok (3 + sectors_sum (take m streams))) f
       /\ (forall i : nat, (i < 3)%nat -> f !! i = fat_reserved !! i)
       /\ (forall i : nat, 3 + sectors_sum (take m streams) <= Z.of_nat i ->
             f !! i = fat_reserved !! i)
       /\ (forall (k : nat) name data, (k < m)%nat -> streams !! k = Some (name, data) ->
             forall j, 0 <= j < nsectors data ->
               f !! Z.to_nat (3 + sectors_sum (take k streams) + j)
               = Some (chain_value (3 + sectors_sum (take k streams)) (nsectors data) j)))
    (enumerate streams) fat_reserved) as (fat & Hrun & HL & HF & H3 & Hhi & Hch).
  - split; [done|]. split; [apply fat_reserved_ok|]. split; [done|]. split; [done|].
    intros k name data Hk. lia.
  - intros m [i [name data]] f Hx (HL & HF & H3 & Hhi & Hch).
    apply lookup_enumerate_from in Hx as [Hi Hx]. simpl in Hi, Hx. subst i.
    cbn beta iota zeta.
    rewrite Z.add_0_l, (get_item_lookup _ _ _ (lookup_starts_from 3 _ _ _ Hx)).
    cbn [mbind result_bind].
    pose proof (sectors_sum_take_S _ _ _ _ Hx) as HS.
    pose proof (sectors_sum_take_le streams (S m)) as Hle.
    pose proof (sectors_sum_nonneg (take m streams)) as H0.
    pose proof (nsectors_pos data) as Hn.
    destruct (chain_loop_total f (3 + sectors_sum (take m streams)) (nsectors data)
                (3 + sectors_sum (take (S m) streams)))
      as (f1 & Hrun1 & HL1 & HF1 & HS1); try (unfold len; lia).
    { eapply Forall_impl; [exact HF|]. intros v. apply fat_value_ok_mono. lia. }
    exists f1. split; [done|]. split; [lia|]. split; [done|].
    split; [|split].
    + intros k Hk. rewrite HS1. case_decide; [lia|]. by apply H3.
    + intros k Hk. rewrite HS1. case_decide; [lia|]. apply Hhi. lia.
    + intros k name' data' Hk Hx' j Hj. rewrite HS1.
      destruct (decide (k = m)) as [->|Hne].
      * rewrite Hx in Hx'. inversion Hx'; subst.
        case_decide; [|lia]. do 2 f_equal. lia.
      * pose proof (sectors_sum_take_mono streams (S k) m ltac:(lia)) as Hmono.
        pose proof (sectors_sum_take_S _ _ _ _ Hx') as HSk.
        case_decide; [lia|]. apply (Hch k name' data'); [lia|done|done].
  - unfold enumerate in HF, Hhi, Hch. rewrite length_enumerate_from in HF, Hhi, Hch.
    rewrite firstn_all in HF, Hhi.
    exists fat. split; [done|]. split; [done|]. split; [done|]. split; [done|].
    split; [done|]. intros k name data Hx. apply (Hch k name data); [|done].
    by eapply lookup_lt_Some.
Qed.

(** ** Packed tables *)

Lemma pack_loop_Ok (l : list Z) (acc b : bytes) :
  for_each l acc (fun acc v => x ← pack_I v; Ok (acc ++ x)) = Ok b ->
  b = acc ++ concat (map (le_bytes 4) l) /\ Forall in_u32 l.
Proof.
  revert acc. induction l as [|v l IH]; intros acc H; simpl in *.
  - inversion H. by rewrite app_nil_r.
  - destruct (pack_I v) as [x|] eqn:E; [|done]. simpl in H.
    apply pack_uint_Ok in E as [-> Hv].
    apply IH in H as [-> HF]. split; [by rewrite <- app_assoc|].
    constructor; [|done]. unfold in_u32. simpl in Hv. lia.
Qed.

Lemma pack_loop_total (l : list Z) (acc : bytes) :
  Forall in_u32 l ->
  for_each l acc (fun acc v => x ← pack_I v; Ok (acc ++ x))
  = Ok (acc ++ concat (map (le_bytes 4) l)).
Proof.
  intros HF. revert acc. induction HF as [|v l Hv HF IH]; intros acc; simpl.
  - by rewrite app_nil_r.
  - rewrite pack_I_in_range by exact Hv. simpl. rewrite IH. by rewrite <- app_assoc.
Qed.

Lemma pack_128I_Ok (l : list Z) (b : bytes) :
  pack_128I l = Ok b ->
  length l = 128%nat /\ b = concat (map (le_bytes 4) l) /\ Forall in_u32 l.
Proof.
  unfold pack_128I. destruct (len l =? 128) eqn:E; simpl; [|done].
  intros H. apply pack_loop_Ok in H as [-> HF]. unfold len in E.
  split; [lia|]. done.
Qed.

Lemma pack_128I_total (l : list Z) :
  length l = 128%nat -> Forall in_u32 l ->
  pack_128I l = Ok (concat (map (le_bytes 4) l)).
Proof.
  intros HL HF. unfold pack_128I, len. rewrite HL. simpl.
  by rewrite pack_loop_total.
Qed.

Lemma length_table (l : list Z) :
  length (concat (map (le_bytes 4) l)) = (4 * length l)%nat.
Proof.
  induction l as [|v l IH]; [done|]. cbn [map concat].
  rewrite length_app, le_bytes_length, IH. simpl. lia.
Qed.

Lemma u32_at_table (l : list Z) (i : nat) (v : Z) :
  l !! i = Some v -> in_u32 v ->
  u32_at (concat (map (le_bytes 4) l)) (4 * i) = v.
Proof.
  revert i. induction l as [|a l IH]; intros i Hi Hv; [done|].
  unfold u32_at in *. cbn [map concat]. destruct i as [|i]; simpl in Hi.
  - inversion Hi; subst. rewrite slice_app_here by (by rewrite le_bytes_length).
    apply le_value_le_bytes. exact Hv.
  - rewrite slice_app_skip by (rewrite le_bytes_length; lia).
    rewrite le_bytes_length. replace (4 * S i - 4)%nat with (4 * i)%nat by lia.
    by apply IH.
Qed.

(** ** The layout of the image *)

Lemma build_hdr_eq : build_hdr = Ok header_bytes.
Proof. vm_compute. reflexivity. Qed.

Lemma minifat_eq : pack_128I (replicate 128 FREESECT) = Ok minifat_bytes.
Proof. vm_compute. reflexivity. Qed.

Lemma build_dir_Ok_length (streams : list stream) (starts : list Z) (ds : bytes) :
  build_dir streams starts = Ok ds -> length ds = 512%nat.
Proof.
  unfold build_dir.
  destruct (_dir_entry _ _ _ _ _ _ _) as [root|]; [|done]. mstep.
  destruct (for_each _ _ _) as [entries|]; [|done]. mstep.
  destruct (len (concat (pad_entries 4 entries)) =? SECTOR) eqn:E; [|done]. mstep.
  intros H. assert (ds = concat (pad_entries 4 entries)) as -> by congruence.
  apply Z.eqb_eq in E. unfold len, SECTOR in E. lia.
Qed.

(** What a returned image is made of. *)
Lemma build_ole2_Ok (streams : list stream) (img : bytes) :
  build_ole2 streams = Ok img ->
  exists fat ds,
    build_fat streams (sector_starts streams) = Ok fat
    /\ build_dir streams (sector_starts streams) = Ok ds
    /\ length fat = 128%nat /\ Forall in_u32 fat /\ length ds = 512%nat
    /\ img = header_bytes ++ concat (map (le_bytes 4) fat) ++ ds
             ++ minifat_bytes ++ build_body streams.
Proof.
  unfold build_ole2, sector_starts.
  destruct (assign_sectors streams) as [starts cur]. cbn [fst snd].
  destruct (build_fat streams starts) as [fat|]; [|done]. mstep.
  destruct (pack_128I fat) as [fs|] eqn:Hfs; [|done]. mstep.
  rewrite minifat_eq. mstep.
  destruct (build_dir streams starts) as [ds|] eqn:Hds; [|done]. mstep.
  rewrite build_hdr_eq. mstep. intros H. assert (img = header_bytes ++ fs ++ ds ++ minifat_bytes ++ build_body streams) as -> by congruence. clear H.
  apply pack_128I_Ok in Hfs as (HL & -> & HF).
  apply build_dir_Ok_length in Hds as HLd.
  by exists fat, ds.
Qed.

Lemma build_ole2_parts (streams : list stream) (fat : list Z) (ds : bytes) :
  build_fat streams (sector_starts streams) = Ok fat ->
  build_dir streams (sector_starts streams) = Ok ds ->
  length fat = 128%nat -> Forall in_u32 fat ->
  build_ole2 streams
  = Ok (header_bytes ++ concat (map (le_bytes 4) fat) ++ ds
        ++ minifat_bytes ++ build_body streams).
Proof.
  unfold build_ole2, sector_starts.
  destruct (assign_sectors streams) as [starts cur]. cbn [fst snd].
  intros -> Hds HL HF. mstep.
  rewrite (pack_128I_total fat HL HF). mstep.
  rewrite minifat_eq. mstep. rewrite Hds. mstep. by rewrite build_hdr_eq.
Qed.

Lemma header_bytes_length : length header_bytes = 512%nat.
Proof. reflexivity. Qed.

Lemma minifat_bytes_length : length minifat_bytes = 512%nat.
Proof. reflexivity. Qed.

Section layout.
Variables (fs ds body : bytes).
Hypothesis Hfs : length fs = 512%nat.
Hypothesis Hds : length ds = 512%nat.

Let img := header_bytes ++ fs ++ ds ++ minifat_bytes ++ body.

Lemma layout_header : header_of img = header_bytes.
Proof. unfold header_of, img. by rewrite slice_app_here. Qed.

Lemma layout_fat : sector_of img 0 = fs.
Proof.
    unfold sector_of, img. apply slice_app_at; [by rewrite header_bytes_length|done].
Qed.

Lemma layout_dir : sector_of img 1 = ds.
Proof.
    unfold sector_of, img. rewrite (app_assoc header_bytes).
    apply slice_app_at; [|done]. rewrite length_app, header_bytes_length, Hfs. done.
Qed.

Lemma layout_minifat : sector_of img 2 = minifat_bytes.
Proof.
    unfold sector_of, img. rewrite (app_assoc header_bytes), (app_assoc (header_bytes ++ fs)).
    apply slice_app_at; [|by rewrite minifat_bytes_length].
    rewrite !length_app, header_bytes_length, Hfs, Hds. done.
Qed.

Lemma layout_body : drop 2048 img = body.
Proof.
    unfold img. rewrite !app_assoc. apply drop_app_length'.
    rewrite !length_app, header_bytes_length, Hfs, Hds, minifat_bytes_length. done.
Qed.

Lemma layout_length : length img = (2048 + length body)%nat.
Proof.
    unfold img. rewrite !length_app, header_bytes_length, Hfs, Hds, minifat_bytes_length. lia.
Qed.
End layout.

(** ** Names *)

Lemma utf16_le_char_scalar (c : Z) :
  is_scalar c = true ->
  exists x, utf16_le_char c = Ok x
            /\ len x = 2 * (if c <? 0x10000 then 1 else 2).
Proof.
  unfold is_scalar, utf16_le_char. intros H.
  destruct (0 <=? c) eqn:E1; [|done]. destruct (c <=? 0x10FFFF) eqn:E2; [|done].
  destruct ((0xD800 <=? c) && (c <=? 0xDFFF)) eqn:E3; [done|].
  destruct (c <? 0) eqn:E4; [lia|]. destruct (0x10FFFF <? c) eqn:E5; [lia|]. simpl.
  destruct (c <? 0x10000); eexists; (split; [done|]); unfold len;
    rewrite ?length_app, ?le_bytes_length; done.
Qed.

Lemma utf16_le_char_Ok (c : Z) (x : bytes) :
  utf16_le_char c = Ok x ->
  is_scalar c = true /\ len x = 2 * (if c <? 0x10000 then 1 else 2).
Proof.
  intros H. assert (is_scalar c = true) as Hs.
  { unfold utf16_le_char in H. unfold is_scalar.
    destruct (c <? 0) eqn:E4; [done|]. destruct (0x10FFFF <? c) eqn:E5; [done|].
    simpl in H. destruct ((0xD800 <=? c) && (c <=? 0xDFFF)) eqn:E3; [done|].
    destruct (0 <=? c) eqn:E1; [|lia]. destruct (c <=? 0x10FFFF) eqn:E2; [|lia]. done. }
  split; [done|]. destruct (utf16_le_char_scalar c Hs) as (x' & Hx & HL).
  rewrite H in Hx. by inversion Hx; subst.
Qed.

Lemma encode_loop_total (name : str) (acc : bytes) :
  forallb is_scalar name = true ->
  exists u, for_each name acc (fun acc c => x ← utf16_le_char c; Ok (acc ++ x)) = Ok (acc ++ u)
            /\ len u = 2 * utf16_units name.
Proof.
  revert acc. induction name as [|c name IH]; intros acc H.
  - exists []. by rewrite app_nil_r.
  - simpl in H. apply andb_prop in H as [Hc Hn].
    destruct (utf16_le_char_scalar c Hc) as (x & Hx & HLx).
    destruct (IH (acc ++ x) Hn) as (u & Hu & HLu).
    exists (x ++ u). cbn [for_each]. rewrite Hx. mstep. rewrite Hu, <- app_assoc.
    split; [done|]. unfold len in *. rewrite length_app.
    cbn [utf16_units fold_right]. fold (utf16_units name). lia.
Qed.

Lemma encode_loop_Ok (name : str) (acc b : bytes) :
  for_each name acc (fun acc c => x ← utf16_le_char c; Ok (acc ++ x)) = Ok b ->
  forallb is_scalar name = true
  /\ exists u, b = acc ++ u /\ len u = 2 * utf16_units name.
Proof.
  revert acc. induction name as [|c name IH]; intros acc H.
  - inversion H. split; [done|]. exists []. by rewrite app_nil_r.
  - cbn [for_each] in H. destruct (utf16_le_char c) as [x|] eqn:Hx; [|done].
    mstep in H. apply utf16_le_char_Ok in Hx as [Hc HLx].
    apply IH in H as (Hn & u & -> & HLu).
    split; [simpl; by rewrite Hc, Hn|].
    exists (x ++ u). rewrite <- app_assoc. split; [done|].
    unfold len in *. rewrite length_app.
    cbn [utf16_units fold_right]. fold (utf16_units name). lia.
Qed.

Lemma encode_utf16_le_total (name : str) :
  forallb is_scalar name = true ->
  exists u, encode_utf16_le name = Ok u /\ len u = 2 * utf16_units name.
Proof. intros H. by apply (encode_loop_total name []). Qed.

Lemma encode_utf16_le_Ok (name : str) (u : bytes) :
  encode_utf16_le name = Ok u ->
  forallb is_scalar name = true /\ len u = 2 * utf16_units name.
Proof.
  intros H. apply encode_loop_Ok in H as (Hn & u' & -> & HL). done.
Qed.

Lemma utf16_units_nonneg (name : str) : 0 <= utf16_units name.
Proof.
  induction name as [|c name IH]; [done|].
  cbn [utf16_units fold_right]. fold (utf16_units name).
  destruct (c <? 0x10000); lia.
Qed.

(** ** Directory entries *)

Lemma bytes_mul_zero (n : Z) : bytes_mul [zero] n = replicate (Z.to_nat n) zero.
Proof.
  unfold bytes_mul. induction (Z.to_nat n) as [|k IH]; [done|].
  simpl. by rewrite IH.
Qed.

Lemma ljust_length (b : bytes) (width : Z) (fill : byte) :
  len (ljust b width fill) = Z.max (len b) width.
Proof.
  unfold ljust, len. rewrite length_app, length_replicate. lia.
Qed.

Lemma entry_bytes_length (name_u : bytes) obj_type start size child left right :
  len (entry_bytes name_u obj_type start size child left right)
  = Z.max (len name_u + 2) 64 + 64.
Proof.
  unfold entry_bytes. unfold len at 1.
  rewrite !length_app, !le_bytes_length, length_replicate.
  pose proof (ljust_length (name_u ++ [zero; zero]) 64 zero) as HL.
  unfold len in *. rewrite length_app in *. simpl in *. lia.
Qed.

(** [_dir_entry] returns exactly when the name can be encoded, the
    numbers fit their fields and the name field has not outgrown its 64
    bytes; what it returns is [entry_bytes]. *)
Lemma _dir_entry_Ok (name : str) (obj_type start size child left right : Z) (e : bytes) :
  _dir_entry name obj_type start size child left right = Ok e ->
  exists name_u,
    encode_utf16_le name = Ok name_u
    /\ len name_u <= 62
    /\ fields_in_range obj_type start size child left right
    /\ e = entry_bytes name_u obj_type start size child left right.
Proof.
  unfold _dir_entry, pack_H, pack_B, pack_I, pack_Q.
  destruct (encode_utf16_le name) as [name_u|]; [|done]. mstep.
  repeat match goal with
  | |- context [pack_uint ?w ?v] =>
      let E := fresh "E" in
      destruct (pack_uint w v) as [?|] eqn:E; [|done];
      apply pack_uint_Ok in E as [-> ?]; mstep
  end.
  rewrite bytes_mul_zero.
  match goal with |- context [len ?x =? 128] => destruct (len x =? 128) eqn:E end; [|done].
  mstep. intros Hres. exists name_u. split; [done|].
  assert (e = entry_bytes name_u obj_type start size child left right) as ->.
  { unfold entry_bytes. rewrite <- !app_assoc in Hres. change (Z.to_nat 16) with 16%nat in Hres. congruence. }
  apply Z.eqb_eq in E. rewrite <- !app_assoc in E. change (Z.to_nat 16) with 16%nat in E.
  change (len (entry_bytes name_u obj_type start size child left right) = 128) in E.
  rewrite entry_bytes_length in E.
  split; [lia|]. split; [|done].
  unfold fields_in_range, in_u32. simpl in *. lia.
Qed.

Lemma _dir_entry_total (name : str) (obj_type start size child left right : Z)
    (name_u : bytes) :
  encode_utf16_le name = Ok name_u ->
  len name_u <= 62 ->
  fields_in_range obj_type start size child left right ->
  _dir_entry name obj_type start size child left right
  = Ok (entry_bytes name_u obj_type start size child left right).
Proof.
  intros Hu HL (Ht & Hstart & Hsize & Hchild & Hleft & Hright).
  unfold in_u32 in *.
  unfold _dir_entry, pack_H, pack_B, pack_I, pack_Q. rewrite Hu. mstep.
  assert (0 <= len name_u) by (unfold len; lia).
  repeat (rewrite pack_uint_in_range by (simpl; lia); mstep).
  rewrite bytes_mul_zero. rewrite <- !app_assoc. change (Z.to_nat 16) with 16%nat.
  change (ljust (name_u ++ [zero; zero]) 64 zero ++ _)
    with (entry_bytes name_u obj_type start size child left right).
  rewrite entry_bytes_length.
  replace (Z.max (len name_u + 2) 64 + 64 =? 128) with true by lia. done.
Qed.

Section entry_fields.
Variables (name_u : bytes) (obj_type start size child left right : Z).
Hypothesis Hname : len name_u <= 62.
Hypothesis Hrange : fields_in_range obj_type start size child left right.

Let e := entry_bytes name_u obj_type start size child left right.
Let name_field := ljust (name_u ++ [zero; zero]) 64 zero.

Lemma name_field_length : length name_field = 64%nat.
Proof.
    pose proof (ljust_length (name_u ++ [zero; zero]) 64 zero) as HL.
    unfold name_field, len in *. rewrite length_app in HL. simpl in HL.
    unfold len in Hname. lia.
Qed.

Lemma entry_length : length e = 128%nat.
Proof.
    pose proof (entry_bytes_length name_u obj_type start size child left right) as HL.
    unfold e, len in *. lia.
Qed.

Ltac field :=
    unfold e, entry_bytes; fold name_field;
    repeat (rewrite slice_app_skip
              by (rewrite ?le_bytes_length, ?length_replicate, ?name_field_length; lia);
            rewrite ?le_bytes_length, ?length_replicate, ?name_field_length;
            cbn [Nat.sub]);
    rewrite slice_app_here by (by rewrite ?le_bytes_length, ?name_field_length).

Lemma entry_name_field_eq : entry_name_field e = name_field.
Proof.
    unfold entry_name_field, e, entry_bytes. fold name_field.
    rewrite slice_app_here; [done|]. by rewrite name_field_length.
Qed.

Lemma entry_name_len_eq : entry_name_len e = len name_u + 2.
Proof.
    unfold entry_name_len, u16_at. field.
    apply le_value_le_bytes. unfold len in *. simpl. lia.
Qed.

Lemma entry_type_eq : entry_type e = obj_type.
Proof.
    unfold entry_type, u8_at. field.
    apply le_value_le_bytes. destruct Hrange as [? _]. simpl. lia.
Qed.

Lemma entry_left_eq : entry_left e = left.
Proof.
    unfold entry_left, u32_at. field.
    apply le_value_le_bytes. destruct Hrange as (_ & _ & _ & _ & H & _). exact H.
Qed.

Lemma entry_right_eq : entry_right e = right.
Proof.
    unfold entry_right, u32_at. field.
    apply le_value_le_bytes. destruct Hrange as (_ & _ & _ & _ & _ & H). exact H.
Qed.

Lemma entry_child_eq : entry_child e = child.
Proof.
    unfold entry_child, u32_at. field.
    apply le_value_le_bytes. destruct Hrange as (_ & _ & _ & H & _). exact H.
Qed.

Lemma entry_start_eq : entry_start e = start.
Proof.
    unfold entry_start, u32_at. field.
    apply le_value_le_bytes. destruct Hrange as (_ & H & _). exact H.
Qed.

Lemma entry_size_eq : entry_size e = size.
Proof.
    unfold entry_size, u32_at. field.
    apply le_value_le_bytes. destruct Hrange as (_ & _ & H & _). exact H.
Qed.
End entry_fields.

(** ** The directory sector *)

Lemma within_capacity_unfold (streams : list stream) :
  within_capacity streams = true ->
  (length streams <= 3)%nat
  /\ Forall (fun s : stream => valid_name (fst s) = true) streams
  /\ 3 + sectors_sum streams <= 128.
Proof.
  unfold within_capacity, total_sectors. rewrite assign_sectors_eq. unfold DATA_START, len.
  cbn [snd]. intros H.
  apply andb_prop in H as [H H3]. apply andb_prop in H as [H1 H2].
  split; [lia|]. split; [|lia].
  rewrite forallb_forall in H2. apply Forall_forall. intros s Hs.
  apply H2. by apply list_elem_of_In.
Qed.

Lemma valid_name_bytes (name : str) :
  valid_name name = true ->
  encode_utf16_le name = Ok (name_bytes name) /\ len (name_bytes name) <= 62.
Proof.
  unfold valid_name. intros H. apply andb_prop in H as [Hs Hu].
  destruct (encode_utf16_le_total name Hs) as (u & Hu' & HL).
  unfold name_bytes. rewrite Hu'. split; [done|]. lia.
Qed.

Lemma pad_entries_eq (rounds : nat) (entries : list bytes) :
  pad_entries rounds entries
  = entries ++ replicate (rounds `min` (4 - length entries)) (replicate 128 zero).
Proof.
  revert entries. induction rounds as [|r IH]; intros entries.
  - simpl. by rewrite app_nil_r.
  - cbn [pad_entries]. unfold len. destruct (Z.of_nat (length entries) <? 4) eqn:E.
    + rewrite IH, length_app, <- app_assoc. f_equal. rewrite bytes_mul_zero.
      change (Z.to_nat 128) with 128%nat. simpl length.
      replace (S r `min` (4 - length entries))%nat
        with (S (r `min` (4 - (length entries + 1))))%nat by lia.
      done.
    + replace (S r `min` (4 - length entries))%nat with 0%nat by lia.
      simpl. by rewrite app_nil_r.
Qed.

Lemma length_concat_uniform (es : list bytes) (w : nat) :
  Forall (fun e => length e = w) es -> length (concat es) = (w * length es)%nat.
Proof.
  induction 1 as [|e es He HF IH]; simpl; [lia|].
  rewrite length_app, IH, He. lia.
Qed.

Lemma slice_concat_uniform (es : list bytes) (w k : nat) (e : bytes) :
  Forall (fun e => length e = w) es -> es !! k = Some e ->
  slice (concat es) (w * k) w = e.
Proof.
  intros HF. revert k. induction HF as [|e0 es He HF IH]; intros k Hk; [done|].
  cbn [concat]. destruct k as [|k]; simpl in Hk.
  - inversion Hk; subst. rewrite Nat.mul_0_r. by apply slice_app_here.
  - rewrite slice_app_skip by lia. rewrite He.
    replace (w * S k - w)%nat with (w * k)%nat by lia. by apply IH.
Qed.

Lemma root_entry_total (streams : list stream) :
  _dir_entry (lit "Root Entry") 5 ENDOFCHAIN 0
    (if len streams =? 0 then NOSTREAM else 1) NOSTREAM NOSTREAM
  = Ok (root_entry streams).
Proof.
  unfold root_entry. destruct (valid_name_bytes (lit "Root Entry")) as [Hu HL]; [done|].
  apply _dir_entry_total; [done|done|].
  unfold fields_in_range, in_u32, ENDOFCHAIN, NOSTREAM.
  destruct (len streams =? 0); lia.
Qed.

Lemma stream_entry_range (streams : list stream) (k : nat) name data :
  (length streams <= 3)%nat ->
  3 + sectors_sum streams <= 128 ->
  streams !! k = Some (name, data) ->
  fields_in_range 2 (3 + sectors_sum (take k streams)) (len data)
    NOSTREAM NOSTREAM
    (if Z.of_nat k + 1 <? len streams then Z.of_nat k + 2 else NOSTREAM).
Proof.
  intros Hn Hcap Hk.
  pose proof (sectors_sum_take_S _ _ _ _ Hk) as HS.
  pose proof (sectors_sum_take_le streams (S k)) as Hle.
  pose proof (sectors_sum_nonneg (take k streams)) as H0.
  pose proof (nsectors_bound data) as Hb.
  pose proof (lookup_lt_Some _ _ _ Hk) as Hlt.
  unfold fields_in_range, in_u32, NOSTREAM, len in *.
  destruct (Z.of_nat k + 1 <? Z.of_nat (length streams)); lia.
Qed.

(** Within capacity the directory sector is returned: the Root entry, one
    entry per stream, and zero-filled entries up to four. *)
Lemma build_dir_total (streams : list stream) :
  within_capacity streams = true ->
  exists ds,
    build_dir streams (sector_starts streams) = Ok ds
    /\ length ds = 512%nat
    /\ slice ds 0 128 = root_entry streams
    /\ (forall (k : nat) name data, streams !! k = Some (name, data) ->
          slice ds (128 * S k) 128 = stream_entry streams k name data)
    /\ (forall k : nat, (length streams < k < 4)%nat ->
          slice ds (128 * k) 128 = replicate 128 zero).
Proof.
  intros Hcap. apply within_capacity_unfold in Hcap as (Hn & Hnames & Hsec).
  unfold build_dir, sector_starts. rewrite assign_sectors_eq. cbn [fst]. unfold DATA_START.
  rewrite root_entry_total. mstep.
  destruct (for_each_total_n
    (fun entries '(i, (name, data)) =>
       let right := if i + 1 <? len streams then i + 2 else NOSTREAM in
       s ← get_item (starts_from 3 streams) i;
       e ← _dir_entry name 2 s (len data) NOSTREAM NOSTREAM right;
       Ok (entries ++ [e]))
    (fun m (entries : list bytes) =>
       length entries = S m
       /\ Forall (fun e => length e = 128%nat) entries
       /\ entries !! 0%nat = Some (root_entry streams)
       /\ forall (k : nat) name data, (k < m)%nat -> streams !! k = Some (name, data) ->
            entries !! S k = Some (stream_entry streams k name data))
    (enumerate streams) [root_entry streams]) as (entries & Hrun & HL & HF & H0 & HS).
  - split; [done|]. split.
    + constructor; [|done]. unfold root_entry.
      apply (entry_length (name_bytes (lit "Root Entry"))).
      by destruct (valid_name_bytes (lit "Root Entry")).
    + split; [done|]. intros k name data Hk. lia.
  - intros m [i [name data]] entries Hx (HL & HF & H0 & HS).
    apply lookup_enumerate_from in Hx as [Hi Hx]. simpl in Hi, Hx. subst i.
    cbn beta iota zeta.
    rewrite Z.add_0_l, (get_item_lookup _ _ _ (lookup_starts_from 3 _ _ _ Hx)). mstep.
    rewrite Forall_forall in Hnames.
    destruct (valid_name_bytes name) as [Hu HLu].
    { apply (Hnames (name, data)). by eapply list_elem_of_lookup_2. }
    rewrite (_dir_entry_total _ _ _ _ _ _ _ _ Hu HLu (stream_entry_range _ _ _ _ Hn Hsec Hx)).
    mstep. eexists. split; [done|].
    split; [rewrite length_app; simpl; lia|]. split; [|split].
    + apply Forall_app. split; [done|]. constructor; [|done]. by apply entry_length.
    + rewrite lookup_app_l by lia. done.
    + intros k name' data' Hk Hx'. destruct (decide (k = m)) as [->|Hne].
      * rewrite Hx in Hx'. inversion Hx'; subst.
        rewrite <- HL. rewrite list_lookup_middle by done. done.
      * rewrite lookup_app_l by lia. apply HS; [lia|done].
  - unfold enumerate in *. rewrite length_enumerate_from in HL, HS.
    rewrite Hrun. mstep. rewrite pad_entries_eq.
    set (pad := replicate _ (replicate 128 zero)).
    assert (Forall (fun e : bytes => length e = 128%nat) (entries ++ pad)) as HFa.
    { apply Forall_app. split; [done|]. apply Forall_replicate. by rewrite length_replicate. }
    assert (length (entries ++ pad) = 4%nat) as HLa.
    { rewrite length_app. unfold pad. rewrite length_replicate. lia. }
    pose proof (length_concat_uniform _ _ HFa) as HLc. rewrite HLa in HLc.
    unfold len, SECTOR. rewrite HLc. mstep.
    eexists. split; [done|]. split; [done|]. split; [|split].
    + change 0%nat with (128 * 0)%nat at 1. apply slice_concat_uniform; [done|].
      rewrite lookup_app_l by lia. done.
    + intros k name data Hk. apply slice_concat_uniform; [done|].
      pose proof (lookup_lt_Some _ _ _ Hk).
      rewrite lookup_app_l by lia. by apply (HS k name data).
    + intros k Hk. apply slice_concat_uniform; [done|].
      rewrite lookup_app_r by lia. unfold pad. apply lookup_replicate_2. lia.
Qed.

(** ** The stream bodies *)

Lemma build_body_fold (streams : list stream) (acc : bytes) :
  fold_left
    (fun body '(_, data) =>
       let rem := len data mod SECTOR in
       body ++ data ++ (if rem =? 0 then [] else bytes_mul [zero] (SECTOR - rem)))
    streams acc
  = acc ++ concat (map (fun s : stream => pad_sector (snd s)) streams).
Proof.
  revert acc. induction streams as [|[name data] rest IH]; intros acc.
  - simpl. by rewrite app_nil_r.
  - cbn [fold_left map concat snd]. rewrite IH. unfold pad_sector.
    by rewrite <- !app_assoc.
Qed.

Lemma build_body_eq (streams : list stream) :
  build_body streams = concat (map (fun s : stream => pad_sector (snd s)) streams).
Proof. unfold build_body. by rewrite build_body_fold. Qed.

Lemma ceil_div_spec (a b : Z) :
  0 < b -> b * (ceil_div a b - 1) < a <= b * ceil_div a b.
Proof. intros Hb. unfold ceil_div. nia. Qed.

Lemma pad_sector_length (data : bytes) :
  len (pad_sector data) = ceil_div (len data) 512 * 512.
Proof.
  unfold pad_sector, ceil_div, SECTOR, len.
  destruct (Z.of_nat (length data) mod 512 =? 0) eqn:E.
  - rewrite app_nil_r. lia.
  - rewrite length_app, bytes_mul_zero, length_replicate. lia.
Qed.

Lemma build_body_length (streams : list stream) :
  len (build_body streams) = body_size streams.
Proof.
  rewrite build_body_eq. induction streams as [|[name data] rest IH]; [done|].
  cbn [map concat body_size fold_right snd]. fold (body_size rest).
  unfold len in *. rewrite length_app.
  pose proof (pad_sector_length data) as HL. unfold len in HL. lia.
Qed.

Lemma body_size_multiple (streams : list stream) : body_size streams mod 512 = 0.
Proof.
  induction streams as [|[name data] rest IH]; [done|].
  cbn [body_size fold_right snd]. fold (body_size rest).
  rewrite Z.add_comm, Z.mod_add by lia. done.
Qed.

(** ** The whole image *)

Lemma fat_value_in_u32 (bound v : Z) :
  bound <= 128 -> fat_value_ok bound v -> in_u32 v.
Proof.
  unfold fat_value_ok, in_u32, FREESECT, ENDOFCHAIN, FATSECT. lia.
Qed.

Lemma total_sectors_eq (streams : list stream) :
  total_sectors streams = 3 + sectors_sum streams.
Proof. unfold total_sectors. by rewrite assign_sectors_eq. Qed.

Lemma lookup_sector_starts (streams : list stream) (k : nat) x :
  streams !! k = Some x ->
  sector_starts streams !! k = Some (3 + sectors_sum (take k streams)).
Proof.
  intros H. unfold sector_starts. rewrite assign_sectors_eq. cbn [fst].
  by apply (lookup_starts_from _ _ _ x).
Qed.

(** Within capacity [build_ole2] returns, and the image is header, FAT,
    directory, Mini-FAT and bodies. *)
Lemma build_ole2_total (streams : list stream) :
  within_capacity streams = true ->
  exists fat ds,
    build_fat streams (sector_starts streams) = Ok fat
    /\ build_dir streams (sector_starts streams) = Ok ds
    /\ length fat = 128%nat /\ Forall in_u32 fat /\ length ds = 512%nat
    /\ build_ole2 streams
       = Ok (header_bytes ++ concat (map (le_bytes 4) fat) ++ ds
             ++ minifat_bytes ++ build_body streams).
Proof.
  intros Hcap.
  destruct (build_dir_total streams Hcap) as (ds & Hds & HLd & _).
  apply within_capacity_unfold in Hcap as (Hn & Hnames & Hsec).
  destruct (build_fat_total streams) as (fat & Hfat & HL & HF & _).
  { rewrite total_sectors_eq. lia. }
  assert (Forall in_u32 fat) as HF'.
  { eapply Forall_impl; [exact HF|]. intros v. apply fat_value_in_u32.
    rewrite total_sectors_eq. lia. }
  exists fat, ds. repeat (split; [done|]). by apply build_ole2_parts.
Qed.

Lemma fat_entry_image (fat : list Z) (ds body : bytes) (i : nat) (v : Z) :
  length fat = 128%nat -> Forall in_u32 fat -> length ds = 512%nat ->
  fat !! i = Some v ->
  fat_entry (header_bytes ++ concat (map (le_bytes 4) fat) ++ ds
             ++ minifat_bytes ++ body) (Z.of_nat i) = v.
Proof.
  intros HL HF HLd Hi. unfold fat_entry.
  rewrite layout_fat by (by rewrite ?length_table, ?HL).
  rewrite Nat2Z.id. apply u32_at_table; [done|].
  rewrite Forall_forall in HF. apply HF. by eapply list_elem_of_lookup_2.
Qed.

Lemma dir_entry_image (fat : list Z) (ds body : bytes) (k : nat) :
  length fat = 128%nat -> length ds = 512%nat ->
  dir_entry_of (header_bytes ++ concat (map (le_bytes 4) fat) ++ ds
                ++ minifat_bytes ++ body) k
  = slice ds (128 * k) 128.
Proof.
  intros HL HLd. unfold dir_entry_of.
  by rewrite layout_dir by (by rewrite ?length_table, ?HL).
Qed.

(** ** The header (C4) *)

Lemma build_ole2_empty : build_ole2 [] = Ok empty_image.
Proof. vm_compute. reflexivity. Qed.

Lemma header_of_image (streams : list stream) (img : bytes) :
  build_ole2 streams = Ok img -> header_of img = header_bytes.
Proof.
  intros H. apply build_ole2_Ok in H as (fat & ds & _ & _ & HL & _ & HLd & ->).
  apply layout_header.
Qed.

(** C4, as the claim words it (minor version 3, major version 0x3E), fails:
    the image of the empty stream list carries 0x3E in the minor-version
    field and 3 in the major-version field. *)
Lemma C4_header_versions_counterexample :
  ~ (forall streams img, build_ole2 streams = Ok img -> header_fields img 3 0x3E).
Proof.
  intros H. specialize (H [] empty_image build_ole2_empty).
  destruct H as (_ & _ & _ & Hminor & _). vm_compute in Hminor. discriminate.
Qed.

(** C4 (amended): for every input, the first 512 bytes of the image
    [build_ole2] returns are the fixed header: the 8-byte magic signature,
    a 16-byte zero CLSID, minor version 0x3E and major version 3 (the fields
    at bytes 24 and 26), byte-order marker 0xFFFE, sector-size shift 9,
    mini-sector-size shift 6, directory sector count 0, FAT sector count 1
    and first directory sector 1. *)
Theorem C4_header (streams : list stream) (img : bytes) :
  build_ole2 streams = Ok img ->
  header_of img = header_bytes /\ header_fields img 0x3E 3.
Proof.
  intros H. apply header_of_image in H. split; [done|].
  unfold header_fields, hdr_magic, hdr_clsid, hdr_minor_version, hdr_major_version,
    hdr_byte_order, hdr_sector_shift, hdr_mini_sector_shift, hdr_dir_sectors,
    hdr_fat_sectors, hdr_first_dir_sector.
  rewrite H. vm_compute. repeat split.
Qed.

Lemma C4_header_witness :
  header_of empty_image = header_bytes /\ header_fields empty_image 0x3E 3.
Proof. apply (C4_header [] empty_image). vm_compute. reflexivity. Defined.

(** ** The Mini-FAT sector (C9) *)

Lemma minifat_bytes_table :
  minifat_bytes = concat (map (le_bytes 4) (replicate 128 FREESECT)).
Proof. vm_compute. reflexivity. Qed.

(** C9: for every input, the Mini-FAT sector of the image, at sector 2,
    is 128 FREESECT entries, so that none of them is ENDOFCHAIN; the FAT
    entry of sector 2 is ENDOFCHAIN; and the header records first Mini-FAT
    sector 2 and Mini-FAT sector count 1. *)
Theorem C9_minifat_sector (streams : list stream) (img : bytes) :
  build_ole2 streams = Ok img ->
  sector_of img 2 = bytes_mul (le_bytes 4 FREESECT) 128
  /\ (forall i, 0 <= i < 128 ->
        minifat_entry img i = FREESECT /\ minifat_entry img i <> ENDOFCHAIN)
  /\ fat_entry img 2 = ENDOFCHAIN
  /\ hdr_first_minifat_sector img = 2
  /\ hdr_minifat_sectors img = 1.
Proof.
  intros H. pose proof (header_of_image _ _ H) as Hh.
  apply build_ole2_Ok in H as (fat & ds & Hfat & _ & HL & HF & HLd & ->).
  assert (sector_of (header_bytes ++ concat (map (le_bytes 4) fat) ++ ds
                     ++ minifat_bytes ++ build_body streams) 2 = minifat_bytes) as Hm.
  { apply layout_minifat; by rewrite ?length_table, ?HL. }
  split; [by rewrite Hm|]. split; [|split].
  - intros i Hi. unfold minifat_entry. rewrite Hm, minifat_bytes_table.
    rewrite (u32_at_table _ _ FREESECT).
    + done.
    + apply lookup_replicate_2. lia.
    + unfold in_u32, FREESECT. lia.
  - apply build_fat_inv in Hfat as [_ H3].
    apply (fat_entry_image fat ds _ 2); [done|done|done|].
    by rewrite H3 by lia.
  - unfold hdr_first_minifat_sector, hdr_minifat_sectors. rewrite Hh.
    vm_compute. done.
Qed.

Lemma C9_minifat_sector_witness :
  sector_of empty_image 2 = bytes_mul (le_bytes 4 FREESECT) 128
  /\ (forall i, 0 <= i < 128 ->
        minifat_entry empty_image i = FREESECT
        /\ minifat_entry empty_image i <> ENDOFCHAIN)
  /\ fat_entry empty_image 2 = ENDOFCHAIN
  /\ hdr_first_minifat_sector empty_image = 2
  /\ hdr_minifat_sectors empty_image = 1.
Proof. apply (C9_minifat_sector [] empty_image). vm_compute. reflexivity. Defined.

(** ** FAT chains (C5) *)

Lemma chain_from_run (img : bytes) (m : nat) :
  forall (s : Z) (fuel : nat),
    0 <= s -> s + Z.of_nat (S m) <= 128 ->
    (forall j, 0 <= j < Z.of_nat m -> fat_entry img (s + j) = s + j + 1) ->
    fat_entry img (s + Z.of_nat m) = ENDOFCHAIN ->
    (S (S m) <= fuel)%nat ->
    chain_from fuel img s = Some (seqZ s (Z.of_nat (S m))).
Proof.
  induction m as [|m IH]; intros s fuel Hs Hb Hnext Hend Hfuel.
  - destruct fuel as [|[|fuel]]; [lia|lia|]. cbn [chain_from].
    replace (s =? ENDOFCHAIN) with false by (unfold ENDOFCHAIN; lia).
    replace (s + Z.of_nat 0) with s in Hend by lia. rewrite Hend. done.
  - destruct fuel as [|fuel]; [lia|]. cbn [chain_from].
    replace (s =? ENDOFCHAIN) with false by (unfold ENDOFCHAIN; lia).
    pose proof (Hnext 0 ltac:(lia)) as H0. rewrite Z.add_0_r in H0. rewrite H0.
    rewrite (IH (s + 1) fuel); try lia.
    + rewrite (seqZ_cons s (Z.of_nat (S (S m)))) by lia.
      do 3 f_equal; lia.
    + intros j Hj. replace (s + 1 + j) with (s + (j + 1)) by lia.
      rewrite Hnext by lia. lia.
    + replace (s + 1 + Z.of_nat m) with (s + Z.of_nat (S m)) by lia. done.
Qed.

(** C5: for every stream list within capacity, the FAT sector of the image
    has entries 0, 1, 2 equal to FATSECT, ENDOFCHAIN, ENDOFCHAIN; for a
    stream whose run is [s, s+n), entries s .. s+n-2 hold s+1 .. s+n-1 and
    entry s+n-1 is ENDOFCHAIN, so that the chain from s has exactly the n
    sectors of the run and ends in ENDOFCHAIN; no entry points outside
    [3, total_sectors); and every entry from total_sectors on is FREESECT. *)
Theorem C5_fat_chains (streams : list stream) :
  within_capacity streams = true ->
  exists img,
    build_ole2 streams = Ok img
    /\ length (sector_of img 0) = 512%nat
    /\ fat_entry img 0 = FATSECT
    /\ fat_entry img 1 = ENDOFCHAIN
    /\ fat_entry img 2 = ENDOFCHAIN
    /\ (forall (k : nat) name data s,
          streams !! k = Some (name, data) ->
          sector_starts streams !! k = Some s ->
          let n := nsectors data in
          3 <= s /\ s + n <= total_sectors streams
          /\ (forall i, s <= i <= s + n - 2 -> fat_entry img i = i + 1)
          /\ fat_entry img (s + n - 1) = ENDOFCHAIN
          /\ follow_chain img s = Some (seqZ s n))
    /\ (forall i, 0 <= i < 128 ->
          fat_value_ok (total_sectors streams) (fat_entry img i))
    /\ (forall i, total_sectors streams <= i < 128 -> fat_entry img i = FREESECT).
Proof.
  intros Hcap.
  destruct (build_ole2_total streams Hcap) as (fat & ds & Hfat & _ & HL & HF & HLd & Himg).
  apply within_capacity_unfold in Hcap as (Hn & Hnames & Hsec).
  destruct (build_fat_total streams) as (fat' & Hfat' & _ & Hok & H3 & Hhi & Hch).
  { rewrite total_sectors_eq. lia. }
  rewrite Hfat in Hfat'. inversion Hfat'; subst fat'. clear Hfat'.
  eexists. split; [exact Himg|].
  assert (forall (i : Z) v, 0 <= i -> fat !! Z.to_nat i = Some v ->
            fat_entry (header_bytes ++ concat (map (le_bytes 4) fat) ++ ds
                       ++ minifat_bytes ++ build_body streams) i = v) as Hget.
  { intros i v Hi Hv. rewrite <- (Z2Nat.id i) at 1 by done. by apply fat_entry_image. }
  split; [by rewrite layout_fat; rewrite ?length_table, ?HL|].
  split; [apply Hget; [lia|]; by rewrite H3 by (simpl; lia)|].
  split; [apply Hget; [lia|]; by rewrite H3 by (simpl; lia)|].
  split; [apply Hget; [lia|]; by rewrite H3 by (simpl; lia)|].
  split; [|split].
  - intros k name data s Hk Hs n.
    rewrite (lookup_sector_starts _ _ _ Hk) in Hs. inversion Hs; subst s. clear Hs.
    pose proof (sectors_sum_take_S _ _ _ _ Hk) as HS.
    pose proof (sectors_sum_take_le streams (S k)) as Hle.
    pose proof (sectors_sum_nonneg (take k streams)) as H0.
    pose proof (nsectors_pos data) as Hpos. fold n in HS, Hpos.
    rewrite total_sectors_eq.
    assert (forall j, 0 <= j < n ->
              fat_entry (header_bytes ++ concat (map (le_bytes 4) fat) ++ ds
                         ++ minifat_bytes ++ build_body streams)
                (3 + sectors_sum (take k streams) + j)
              = chain_value (3 + sectors_sum (take k streams)) n j) as Hrun.
    { intros j Hj. apply Hget; [lia|]. by apply (Hch k name data). }
    assert (forall j, 0 <= j < n - 1 ->
              fat_entry (header_bytes ++ concat (map (le_bytes 4) fat) ++ ds
                         ++ minifat_bytes ++ build_body streams)
                (3 + sectors_sum (take k streams) + j)
              = 3 + sectors_sum (take k streams) + j + 1) as Hnext.
    { intros j Hj. rewrite Hrun by lia. unfold chain_value.
      destruct (j <? n - 1) eqn:E; lia. }
    assert (fat_entry (header_bytes ++ concat (map (le_bytes 4) fat) ++ ds
                       ++ minifat_bytes ++ build_body streams)
              (3 + sectors_sum (take k streams) + (n - 1)) = ENDOFCHAIN) as Hend.
    { rewrite Hrun by lia. unfold chain_value.
      destruct (n - 1 <? n - 1) eqn:E; [lia|done]. }
    split; [lia|]. split; [lia|]. split; [|split].
    + intros i Hi.
      replace i with (3 + sectors_sum (take k streams) + (i - (3 + sectors_sum (take k streams))))
        at 1 by lia.
      rewrite Hnext by lia. lia.
    + replace (3 + sectors_sum (take k streams) + n - 1)
        with (3 + sectors_sum (take k streams) + (n - 1)) by lia. exact Hend.
    + unfold follow_chain.
      replace n with (Z.of_nat (S (Z.to_nat (n - 1)))) at 1 by lia.
      apply chain_from_run; try lia.
      * intros j Hj. apply Hnext. lia.
      * rewrite Z2Nat.id by lia. exact Hend.
  - intros i Hi. rewrite Forall_forall in Hok.
    destruct (fat !! Z.to_nat i) as [v|] eqn:Hv.
    + rewrite (Hget i v) by (done || lia). apply Hok. by eapply list_elem_of_lookup_2.
    + apply lookup_ge_None in Hv. lia.
  - intros i Hi. rewrite total_sectors_eq in Hi.
    pose proof (sectors_sum_nonneg streams).
    apply Hget; [lia|].
    rewrite Hhi by (rewrite total_sectors_eq; lia). unfold fat_reserved.
    rewrite !list_lookup_insert_ne by lia. apply lookup_replicate_2. lia.
Qed.

Lemma C5_fat_chains_witness :
  exists img,
    build_ole2 [(lit "A", replicate 600 zero); (lit "B", [])] = Ok img
    /\ length (sector_of img 0) = 512%nat
    /\ fat_entry img 0 = FATSECT
    /\ fat_entry img 1 = ENDOFCHAIN
    /\ fat_entry img 2 = ENDOFCHAIN
    /\ (forall (k : nat) name data s,
          [(lit "A", replicate 600 zero); (lit "B", [])] !! k = Some (name, data) ->
          sector_starts [(lit "A", replicate 600 zero); (lit "B", [])] !! k = Some s ->
          let n := nsectors data in
          3 <= s
          /\ s + n <= total_sectors [(lit "A", replicate 600 zero); (lit "B", [])]
          /\ (forall i, s <= i <= s + n - 2 -> fat_entry img i = i + 1)
          /\ fat_entry img (s + n - 1) = ENDOFCHAIN
          /\ follow_chain img s = Some (seqZ s n))
    /\ (forall i, 0 <= i < 128 ->
          fat_value_ok (total_sectors [(lit "A", replicate 600 zero); (lit "B", [])])
            (fat_entry img i))
    /\ (forall i,
          total_sectors [(lit "A", replicate 600 zero); (lit "B", [])] <= i < 128 ->
          fat_entry img i = FREESECT).
Proof.
  apply (C5_fat_chains [(lit "A", replicate 600 zero); (lit "B", [])]).
  vm_compute. reflexivity.
Defined.

(** ** The directory (C6) *)

Lemma stream_name_ok (streams : list stream) (k : nat) name data :
  Forall (fun s : stream => valid_name (fst s) = true) streams ->
  streams !! k = Some (name, data) -> len (name_bytes name) <= 62.
Proof.
  intros HF Hk. rewrite Forall_forall in HF.
  apply valid_name_bytes. apply (HF (name, data)). by eapply list_elem_of_lookup_2.
Qed.

Lemma root_entry_range (streams : list stream) :
  fields_in_range 5 ENDOFCHAIN 0
    (if len streams =? 0 then NOSTREAM else 1) NOSTREAM NOSTREAM.
Proof.
  unfold fields_in_range, in_u32, ENDOFCHAIN, NOSTREAM.
  destruct (len streams =? 0); lia.
Qed.

Lemma root_name_ok : len (name_bytes (lit "Root Entry")) <= 62.
Proof. by apply valid_name_bytes. Qed.

(** C6: for every stream list of N <= 3 streams within capacity, the
    directory sector of the image holds exactly 4 entries of 128 bytes:
    entry 0 is the Root, whose child link is 1 if N > 0 and NOSTREAM
    otherwise; stream entry i (1-indexed) has right sibling i+1 if a next
    stream exists and NOSTREAM otherwise, and left sibling NOSTREAM; the
    entries beyond index N are 128 zero bytes. *)
Theorem C6_directory (streams : list stream) :
  within_capacity streams = true ->
  exists img,
    build_ole2 streams = Ok img
    /\ length (sector_of img 1) = (4 * 128)%nat
    /\ (forall k : nat, (k < 4)%nat -> length (dir_entry_of img k) = 128%nat)
    /\ entry_type (dir_entry_of img 0) = 5
    /\ entry_child (dir_entry_of img 0)
       = (if 0 <? len streams then 1 else NOSTREAM)
    /\ (forall i : nat, (1 <= i <= length streams)%nat ->
          entry_type (dir_entry_of img i) = 2
          /\ entry_right (dir_entry_of img i)
             = (if Z.of_nat i <? len streams then Z.of_nat i + 1 else NOSTREAM)
          /\ entry_left (dir_entry_of img i) = NOSTREAM)
    /\ (forall k : nat, (length streams < k < 4)%nat ->
          dir_entry_of img k = replicate 128 zero).
Proof.
  intros Hcap.
  destruct (build_ole2_total streams Hcap) as (fat & ds & _ & Hds & HL & HF & HLd & Himg).
  destruct (build_dir_total streams Hcap) as (ds' & Hds' & _ & Hroot & Hstream & Hpad).
  rewrite Hds in Hds'. inversion Hds'; subst ds'. clear Hds'.
  apply within_capacity_unfold in Hcap as (Hn & Hnames & Hsec).
  eexists. split; [exact Himg|].
  split; [by rewrite layout_dir; rewrite ?length_table, ?HL|].
  split.
  { intros k Hk. rewrite dir_entry_image by done. apply slice_length. lia. }
  rewrite !dir_entry_image by done. change (128 * 0)%nat with 0%nat. rewrite Hroot.
  unfold root_entry.
  split; [apply (entry_type_eq (name_bytes (lit "Root Entry")));
          [apply root_name_ok|apply root_entry_range]|].
  split.
  { rewrite entry_child_eq by (apply root_name_ok || apply root_entry_range).
    unfold len. destruct (length streams); done. }
  split.
  - intros i Hi. destruct i as [|k]; [lia|].
    destruct (streams !! k) as [[name data]|] eqn:Hk.
    2: { apply lookup_ge_None in Hk. lia. }
    rewrite dir_entry_image by done. rewrite (Hstream k name data Hk).
    pose proof (stream_name_ok _ _ _ _ Hnames Hk) as Hname.
    pose proof (stream_entry_range _ _ _ _ Hn Hsec Hk) as Hr.
    unfold stream_entry.
    rewrite entry_type_eq, entry_right_eq, entry_left_eq by done.
    split; [done|]. split; [|done].
    replace (Z.of_nat (S k)) with (Z.of_nat k + 1) by lia.
    destruct (Z.of_nat k + 1 <? len streams); [lia|done].
  - intros k Hk. rewrite dir_entry_image by done. by apply Hpad.
Qed.

Lemma C6_directory_witness :
  exists img,
    build_ole2 [(lit "A", [zero]); (lit "B", [])] = Ok img
    /\ length (sector_of img 1) = (4 * 128)%nat
    /\ (forall k : nat, (k < 4)%nat -> length (dir_entry_of img k) = 128%nat)
    /\ entry_type (dir_entry_of img 0) = 5
    /\ entry_child (dir_entry_of img 0)
       = (if 0 <? len [(lit "A", [zero]); (lit "B", @nil byte)] then 1 else NOSTREAM)
    /\ (forall i : nat,
          (1 <= i <= length [(lit "A", [zero]); (lit "B", @nil byte)])%nat ->
          entry_type (dir_entry_of img i) = 2
          /\ entry_right (dir_entry_of img i)
             = (if Z.of_nat i <? len [(lit "A", [zero]); (lit "B", @nil byte)]
                then Z.of_nat i + 1 else NOSTREAM)
          /\ entry_left (dir_entry_of img i) = NOSTREAM)
    /\ (forall k : nat,
          (length [(lit "A", [zero]); (lit "B", @nil byte)] < k < 4)%nat ->
          dir_entry_of img k = replicate 128 zero).
Proof.
  apply (C6_directory [(lit "A", [zero]); (lit "B", [])]). vm_compute. reflexivity.
Defined.

(** ** The image length (C7) *)

(** C7: for every list of 0 to 3 streams within capacity, the length of
    the image is a multiple of 512 and equals
    4*512 + Σ ceil(len(payload_i)/512)*512. *)
Theorem C7_image_length (streams : list stream) :
  within_capacity streams = true ->
  exists img,
    build_ole2 streams = Ok img
    /\ len img mod 512 = 0
    /\ len img = 4 * 512 + body_size streams.
Proof.
  intros Hcap.
  destruct (build_ole2_total streams Hcap) as (fat & ds & _ & _ & HL & HF & HLd & Himg).
  eexists. split; [exact Himg|].
  pose proof (build_body_length streams) as Hb.
  pose proof (body_size_multiple streams) as Hm.
  unfold len in *. rewrite layout_length by (by rewrite ?length_table, ?HL).
  rewrite Nat2Z.inj_add, Hb. split; [|done].
  change (Z.of_nat 2048) with (4 * 512). rewrite Z.add_comm, Z.mod_add by lia. done.
Qed.

Lemma C7_image_length_witness :
  exists img,
    build_ole2 [(lit "A", replicate 513 zero); (lit "B", []); (lit "C", [zero])] = Ok img
    /\ len img mod 512 = 0
    /\ len img
       = 4 * 512
         + body_size [(lit "A", replicate 513 zero); (lit "B", []); (lit "C", [zero])].
Proof.
  apply (C7_image_length [(lit "A", replicate 513 zero); (lit "B", []); (lit "C", [zero])]).
  vm_compute. reflexivity.
Defined.

(** ** The size of a directory entry (C8) *)

(** C8: for a stream name of at most 31 UTF-16 code units, the length
    assertion of [_dir_entry] cannot fail, whatever the other arguments;
    with numbers that fit their fields [_dir_entry] returns exactly 128
    bytes; and the 4-entry directory sector [build_ole2] assembles from such
    names is exactly 512 bytes. *)
Theorem C8_dir_entry_size (name : str) :
  valid_name name = true ->
  (forall obj_type start size child left right,
     _dir_entry name obj_type start size child left right <> Raise AssertionError
     /\ (forall e, _dir_entry name obj_type start size child left right = Ok e ->
           length e = 128%nat)
     /\ (fields_in_range obj_type start size child left right ->
         exists e, _dir_entry name obj_type start size child left right = Ok e
                   /\ length e = 128%nat))
  /\ (forall streams data, within_capacity streams = true ->
        (name, data) ∈ streams ->
        exists ds img, build_dir streams (sector_starts streams) = Ok ds
                       /\ build_ole2 streams = Ok img
                       /\ sector_of img 1 = ds
                       /\ length ds = 512%nat).
Proof.
  intros Hname. destruct (valid_name_bytes name Hname) as [Hu HLu]. split.
  - intros obj_type start size child left right. split; [|split].
    + unfold _dir_entry, pack_H, pack_B, pack_I, pack_Q. rewrite Hu. mstep.
      repeat match goal with
      | |- context [pack_uint ?w ?v] =>
          let E := fresh "E" in
          destruct (pack_uint w v) as [?|] eqn:E;
          [apply pack_uint_Ok in E as [-> _]; mstep
          |unfold pack_uint in E; destruct (_ && _); [done|]; inversion E; subst; done]
      end.
      rewrite bytes_mul_zero. rewrite <- !app_assoc. change (Z.to_nat 16) with 16%nat.
      change (ljust (name_bytes name ++ [zero; zero]) 64 zero ++ _)
        with (entry_bytes (name_bytes name) obj_type start size child left right).
      rewrite entry_bytes_length.
      replace (Z.max (len (name_bytes name) + 2) 64 + 64 =? 128) with true by lia. done.
    + intros e He. apply _dir_entry_Ok in He as (u & Hu' & HLu' & Hr & ->).
      by apply entry_length.
    + intros Hr. eexists. split; [by apply _dir_entry_total|]. by apply entry_length.
  - intros streams data Hcap _.
    destruct (build_ole2_total streams Hcap) as (fat & ds & _ & Hds & HL & HF & HLd & Himg).
    exists ds. eexists. split; [done|]. split; [exact Himg|]. split; [|done].
    apply layout_dir; by rewrite ?length_table, ?HL.
Qed.

Lemma C8_dir_entry_size_witness :
  (forall obj_type start size child left right,
     _dir_entry (lit "PowerPoint Document") obj_type start size child left right
       <> Raise AssertionError
     /\ (forall e, _dir_entry (lit "PowerPoint Document") obj_type start size child left right = Ok e ->
           length e = 128%nat)
     /\ (fields_in_range obj_type start size child left right ->
         exists e, _dir_entry (lit "PowerPoint Document") obj_type start size child left right = Ok e
                   /\ length e = 128%nat))
  /\ (forall streams data, within_capacity streams = true ->
        (lit "PowerPoint Document", data) ∈ streams ->
        exists ds img, build_dir streams (sector_starts streams) = Ok ds
                       /\ build_ole2 streams = Ok img
                       /\ sector_of img 1 = ds
                       /\ length ds = 512%nat).
Proof. apply (C8_dir_entry_size (lit "PowerPoint Document")). vm_compute. reflexivity. Defined.

(** ** The single 4096-byte stream (C1) *)

Lemma build_ole2_zero_ppt : build_ole2 zero_ppt_streams = Ok zero_ppt_image.
Proof. vm_compute. reflexivity. Qed.

(** C1, as the claim words it, fails: the 4096-byte payload takes the 8
    sectors 3 .. 10, so FAT entry 3 is 4, not ENDOFCHAIN. *)
Lemma C1_single_stream_counterexample :
  ~ (exists img,
       build_ole2 zero_ppt_streams = Ok img
       /\ len img = 2048 + 4096
       /\ fat_entry img 3 = ENDOFCHAIN
       /\ entry_name (dir_entry_of img 1) = lit "PowerPoint Document"
       /\ entry_start (dir_entry_of img 1) = 3
       /\ entry_size (dir_entry_of img 1) = 4096).
Proof.
  intros (img & Himg & _ & Hfat & _).
  rewrite build_ole2_zero_ppt in Himg.
  assert (img = zero_ppt_image) as -> by congruence.
  vm_compute in Hfat. discriminate.
Qed.

(** C1 (amended): for the single stream ("PowerPoint Document", 4096 zero
    bytes), [build_ole2] returns an image of exactly 2048 + 4096 = 6144
    bytes in which FAT entries 3 .. 9 hold 4 .. 10 and FAT entry 10 is
    ENDOFCHAIN, and directory entry 1 names "PowerPoint Document" with start
    sector 3 and stream size 4096. *)
Theorem C1_single_stream :
  exists img,
    build_ole2 zero_ppt_streams = Ok img
    /\ len img = 2048 + 4096
    /\ map (fat_entry img) (seqZ 3 8) = [4; 5; 6; 7; 8; 9; 10; ENDOFCHAIN]
    /\ follow_chain img 3 = Some (seqZ 3 8)
    /\ entry_name (dir_entry_of img 1) = lit "PowerPoint Document"
    /\ entry_type (dir_entry_of img 1) = 2
    /\ entry_start (dir_entry_of img 1) = 3
    /\ entry_size (dir_entry_of img 1) = 4096.
Proof.
  exists zero_ppt_image. split; [exact build_ole2_zero_ppt|].
  vm_compute. repeat split.
Qed.

(** ** Payload padding (C3) *)

Lemma build_ole2_tiny : build_ole2 tiny_streams = Ok tiny_image.
Proof. vm_compute. reflexivity. Qed.

(** C3, as the claim words it, fails: a one-byte payload is stored in one
    512-byte sector. *)
Lemma C3_payload_padding_counterexample :
  ~ (forall streams, within_capacity streams = true ->
       forall img, build_ole2 streams = Ok img ->
         forall k : nat, (k < length streams)%nat ->
           exists n, stored_bytes img k = Some n /\ 4096 <= n).
Proof.
  intros H.
  destruct (H tiny_streams eq_refl tiny_image build_ole2_tiny 0%nat) as (n & Hn & Hle).
  { simpl. lia. }
  vm_compute in Hn. inversion Hn; subst. lia.
Qed.

Lemma pad_sector_prefix (data : bytes) : take (length data) (pad_sector data) = data.
Proof. unfold pad_sector. by rewrite take_app_length. Qed.

Lemma pad_sector_short (data : bytes) : len (pad_sector data) < len data + 512.
Proof.
  rewrite pad_sector_length. pose proof (ceil_div_spec (len data) 512). lia.
Qed.

(** C3 (amended): for every stream list within capacity, [build_ole2]
    stores each payload followed by zero bytes up to the next multiple of
    512 only: a payload of L bytes takes ceil(L/512)*512 bytes of the image,
    fewer than L + 512, and its directory entry records L. The padding to
    the 4096-byte cutoff is done by the callers: [make_doc_10page] and
    [make_ppt_5slide] hand [build_ole2] a payload of exactly 4096 bytes. *)
Theorem C3_payload_padding (streams : list stream) :
  within_capacity streams = true ->
  (exists img,
     build_ole2 streams = Ok img
     /\ drop 2048 img = concat (map (fun s : stream => pad_sector (snd s)) streams)
     /\ forall (k : nat) name data, streams !! k = Some (name, data) ->
          take (length data) (pad_sector data) = data
          /\ drop (length data) (pad_sector data)
             = replicate (length (pad_sector data) - length data) zero
          /\ len (pad_sector data) = ceil_div (len data) 512 * 512
          /\ len (pad_sector data) < len data + 512
          /\ entry_size (dir_entry_of img (S k)) = len data)
  /\ (exists payload,
        doc_summary = Ok payload /\ len payload = 4096
        /\ make_doc_10page = build_ole2 [(5 :: lit "SummaryInformation", payload)])
  /\ (exists payload,
        ppt_slide_stream = Ok payload /\ len payload = 4096
        /\ make_ppt_5slide = build_ole2 [(lit "PowerPoint Document", payload)]).
Proof.
  intros Hcap. split; [|split].
  - destruct (build_ole2_total streams Hcap) as (fat & ds & _ & Hds & HL & HF & HLd & Himg).
    destruct (build_dir_total streams Hcap) as (ds' & Hds' & _ & _ & Hstream & _).
    rewrite Hds in Hds'. inversion Hds'; subst ds'. clear Hds'.
    apply within_capacity_unfold in Hcap as (Hn & Hnames & Hsec).
    eexists. split; [exact Himg|]. split.
    { rewrite layout_body by (by rewrite ?length_table, ?HL). apply build_body_eq. }
    intros k name data Hk.
    split; [apply pad_sector_prefix|]. split.
    { unfold pad_sector. rewrite drop_app_length, length_app.
      destruct (len data mod SECTOR =? 0); [simpl; by rewrite Nat.add_0_r, Nat.sub_diag|].
      rewrite bytes_mul_zero, length_replicate. f_equal. lia. }
    split; [apply pad_sector_length|]. split; [apply pad_sector_short|].
    rewrite dir_entry_image by done. rewrite (Hstream k name data Hk).
    apply entry_size_eq.
    + by apply (stream_name_ok streams k name data).
    + by apply (stream_entry_range streams k name data).
  - assert (exists payload, doc_summary = Ok payload /\ len payload = 4096) as (p & Hp & HLp).
    { vm_compute. eexists. split; reflexivity. }
    exists p. split; [done|]. split; [done|]. unfold make_doc_10page. by rewrite Hp.
  - assert (exists payload, ppt_slide_stream = Ok payload /\ len payload = 4096) as (p & Hp & HLp).
    { vm_compute. eexists. split; reflexivity. }
    exists p. split; [done|]. split; [done|]. unfold make_ppt_5slide. by rewrite Hp.
Qed.

Lemma C3_payload_padding_witness :
  (exists img,
     build_ole2 tiny_streams = Ok img
     /\ drop 2048 img = concat (map (fun s : stream => pad_sector (snd s)) tiny_streams)
     /\ forall (k : nat) name data, tiny_streams !! k = Some (name, data) ->
          take (length data) (pad_sector data) = data
          /\ drop (length data) (pad_sector data)
             = replicate (length (pad_sector data) - length data) zero
          /\ len (pad_sector data) = ceil_div (len data) 512 * 512
          /\ len (pad_sector data) < len data + 512
          /\ entry_size (dir_entry_of img (S k)) = len data)
  /\ (exists payload,
        doc_summary = Ok payload /\ len payload = 4096
        /\ make_doc_10page = build_ole2 [(5 :: lit "SummaryInformation", payload)])
  /\ (exists payload,
        ppt_slide_stream = Ok payload /\ len payload = 4096
        /\ make_ppt_5slide = build_ole2 [(lit "PowerPoint Document", payload)]).
Proof. apply (C3_payload_padding tiny_streams). vm_compute. reflexivity. Defined.

(** ** Property values *)

Lemma land_lnot3 (a : Z) : Z.land a (Z.lnot 3) = a - a mod 4.
Proof.
  rewrite <- Z.ldiff_land. change 3 with (Z.ones 2).
  rewrite Z.ldiff_ones_r by lia.
  rewrite Z.shiftr_div_pow2, Z.shiftl_mul_pow2 by lia.
  change (2 ^ 2) with 4. lia.
Qed.

Lemma str_data_length (text : str) :
  len (str_data text) mod 4 = 0
  /\ len text < len (str_data text) <= len text + 4.
Proof.
  unfold str_data. set (data := encode_latin1_replace text ++ [zero]).
  assert (len data = len text + 1) as HL.
  { unfold data, len, encode_latin1_replace. rewrite length_app, length_map. simpl. lia. }
  destruct (len data mod 4 =? 0) eqn:E.
  - apply Z.eqb_eq in E. lia.
  - apply Z.eqb_neq in E. unfold len in *.
    rewrite length_app, bytes_mul_zero, length_replicate. lia.
Qed.

Lemma _prop_str_Ok (pid : Z) (text : str) (p : Z * bytes) :
  _prop_str pid text = Ok p ->
  p = (pid, str_value text) /\ in_u32 (len (str_data text)).
Proof.
  unfold _prop_str, pack_H, pack_I. fold (str_data text).
  destruct (pack_uint 2 VT_LPSTR) as [t|] eqn:Et; [|done]. mstep.
  destruct (pack_uint 4 (len (str_data text))) as [c|] eqn:Ec; [|done]. mstep.
  apply pack_uint_Ok in Et as [-> _]. apply pack_uint_Ok in Ec as [-> Hc].
  intros H. split; [unfold str_value; congruence|]. exact Hc.
Qed.

Lemma _prop_str_total (pid : Z) (text : str) :
  in_u32 (len (str_data text)) -> _prop_str pid text = Ok (pid, str_value text).
Proof.
  intros Hc. unfold _prop_str, pack_H, pack_I. fold (str_data text).
  rewrite (pack_uint_in_range 2 VT_LPSTR) by (unfold VT_LPSTR; simpl; lia). mstep.
  rewrite (pack_uint_in_range 4) by exact Hc. done.
Qed.

Lemma _prop_i4_Ok (pid value : Z) (p : Z * bytes) :
  _prop_i4 pid value = Ok p -> p = (pid, i4_value value) /\ in_i32 value.
Proof.
  unfold _prop_i4, pack_H, pack_i, in_i32.
  destruct (pack_uint 2 VT_I4) as [t|] eqn:Et; [|done]. mstep.
  apply pack_uint_Ok in Et as [-> _].
  destruct (- 2 ^ 31 <=? value) eqn:E1; destruct (value <? 2 ^ 31) eqn:E2;
    cbn [andb]; mstep; try done.
  intros H. split; [unfold i4_value; congruence|lia].
Qed.

Lemma _prop_i4_total (pid value : Z) :
  in_i32 value -> _prop_i4 pid value = Ok (pid, i4_value value).
Proof.
  unfold in_i32. intros Hv. unfold _prop_i4, pack_H, pack_i.
  rewrite (pack_uint_in_range 2 VT_I4) by (unfold VT_I4; simpl; lia). mstep.
  destruct (- 2 ^ 31 <=? value) eqn:E1; [|lia].
  destruct (value <? 2 ^ 31) eqn:E2; [|lia]. done.
Qed.

Lemma summary_props_Ok (page_count : Z) (title author : str) props :
  summary_props page_count title author = Ok props ->
  props = expected_props page_count title author /\ in_i32 page_count.
Proof.
  unfold summary_props, expected_props.
  destruct (bool_decide (title = [])); destruct (bool_decide (author = [])); mstep.
  - destruct (_prop_i4 _ _) as [p|] eqn:E; [|done]. mstep.
    apply _prop_i4_Ok in E as [-> Hi]. intros H. injection H as <-. split; [reflexivity|done].
  - destruct (_prop_str 4 author) as [pa|] eqn:Ea; [|done]. mstep.
    apply _prop_str_Ok in Ea as [-> _].
    destruct (_prop_i4 _ _) as [p|] eqn:E; [|done]. mstep.
    apply _prop_i4_Ok in E as [-> Hi]. intros H. injection H as <-. split; [reflexivity|done].
  - destruct (_prop_str 2 title) as [pt|] eqn:Et; [|done]. mstep.
    apply _prop_str_Ok in Et as [-> _].
    destruct (_prop_i4 _ _) as [p|] eqn:E; [|done]. mstep.
    apply _prop_i4_Ok in E as [-> Hi]. intros H. injection H as <-. split; [reflexivity|done].
  - destruct (_prop_str 2 title) as [pt|] eqn:Et; [|done]. mstep.
    apply _prop_str_Ok in Et as [-> _].
    destruct (_prop_str 4 author) as [pa|] eqn:Ea; [|done]. mstep.
    apply _prop_str_Ok in Ea as [-> _].
    destruct (_prop_i4 _ _) as [p|] eqn:E; [|done]. mstep.
    apply _prop_i4_Ok in E as [-> Hi]. intros H. injection H as <-. split; [reflexivity|done].
Qed.

Lemma summary_props_total (page_count : Z) (title author : str) :
  in_i32 page_count ->
  in_u32 (len (str_data title)) -> in_u32 (len (str_data author)) ->
  summary_props page_count title author
  = Ok (expected_props page_count title author).
Proof.
  intros Hi Ht Ha. unfold summary_props, expected_props.
  rewrite (_prop_i4_total _ _ Hi).
  destruct (bool_decide (title = [])); destruct (bool_decide (author = [])); mstep;
    rewrite ?(_prop_str_total _ _ Ht), ?(_prop_str_total _ _ Ha); done.
Qed.

(** ** The property-set section *)

Lemma build_stream_header_eq : build_stream_header = Ok stream_header_bytes.
Proof. vm_compute. reflexivity. Qed.

Lemma table_loop_Ok (l : list (Z * bytes * Z)) (acc b : bytes) :
  for_each l acc (fun prop_set '((pid, _), o) => x ← pack_II pid o; Ok (prop_set ++ x)) = Ok b ->
  b = acc ++ id_table l.
Proof.
  revert acc. induction l as [|[[pid v] o] l IH]; intros acc H.
  - inversion H. unfold id_table. simpl. by rewrite app_nil_r.
  - cbn [for_each] in H. unfold pack_II, pack_I in H.
    destruct (pack_uint 4 pid) as [x|] eqn:Ex; [|done]. mstep in H.
    destruct (pack_uint 4 o) as [y|] eqn:Ey; [|done]. mstep in H.
    apply pack_uint_Ok in Ex as [-> _]. apply pack_uint_Ok in Ey as [-> _].
    apply IH in H as ->. unfold id_table. cbn [map concat].
    by rewrite <- !app_assoc.
Qed.

Lemma table_loop_total (l : list (Z * bytes * Z)) (acc : bytes) :
  Forall (fun e : Z * bytes * Z => in_u32 (fst (fst e)) /\ in_u32 (snd e)) l ->
  for_each l acc (fun prop_set '((pid, _), o) => x ← pack_II pid o; Ok (prop_set ++ x))
  = Ok (acc ++ id_table l).
Proof.
  intros HF. revert acc. induction HF as [|[[pid v] o] l [Hp Ho] HF IH]; intros acc.
  - unfold id_table. simpl. by rewrite app_nil_r.
  - cbn [for_each]. unfold pack_II, pack_I. simpl in Hp, Ho.
    rewrite (pack_uint_in_range 4 pid) by exact Hp. mstep.
    rewrite (pack_uint_in_range 4 o) by exact Ho. mstep.
    fold pack_I. fold (pack_II). rewrite IH. unfold id_table. cbn [map concat].
    by rewrite <- !app_assoc.
Qed.

Lemma id_table_length (l : list (Z * bytes * Z)) :
  length (id_table l) = (8 * length l)%nat.
Proof.
  unfold id_table. induction l as [|[[pid v] o] l IH]; [done|].
  cbn [map concat]. rewrite !length_app, !le_bytes_length, IH. simpl. lia.
Qed.

Lemma id_table_read (l : list (Z * bytes * Z)) (j : nat) pid v o :
  l !! j = Some (pid, v, o) -> in_u32 pid -> in_u32 o ->
  u32_at (id_table l) (8 * j) = pid /\ u32_at (id_table l) (4 + 8 * j) = o.
Proof.
  revert j. unfold id_table, u32_at.
  induction l as [|[[pid' v'] o'] l IH]; intros j Hj Hp Ho; [done|].
  cbn [map concat]. destruct j as [|j]; simpl in Hj.
  - inversion Hj; subst. rewrite <- !app_assoc. split.
    + rewrite slice_app_here by (by rewrite le_bytes_length).
      by apply le_value_le_bytes.
    + rewrite slice_app_skip by (rewrite le_bytes_length; simpl; lia).
      rewrite le_bytes_length. simpl Nat.sub.
      rewrite slice_app_here by (by rewrite le_bytes_length).
      by apply le_value_le_bytes.
  - destruct (IH j Hj Hp Ho) as [H1 H2].
    rewrite !slice_app_skip by (rewrite length_app, !le_bytes_length; lia).
    rewrite length_app, !le_bytes_length.
    replace (8 * S j - (4 + 4))%nat with (8 * j)%nat by lia.
    replace (4 + 8 * S j - (4 + 4))%nat with (4 + 8 * j)%nat by lia. done.
Qed.

Lemma pad_align (off l : Z) :
  off mod 4 = 0 ->
  Z.land (off + l + 3) (Z.lnot 3) = off + l + (4 - l mod 4) mod 4.
Proof. intros H. rewrite land_lnot3. lia. Qed.

(** The offsets loop and the values loop run in step: the offset of a
    property is where its value is emitted, and the last value ends the
    section. *)
Lemma emit_offsets (n : Z) (props : list (Z * bytes)) :
  forall (k : Z) (acc : bytes) (offs : list Z) (off : Z),
    off = len acc -> off mod 4 = 0 -> k + len props = n ->
    exists os t off',
      fold_left offset_step props (offs, off) = (offs ++ os, off')
      /\ fold_left (value_step n) (enumerate_from k props) acc = acc ++ t
      /\ length os = length props
      /\ off <= off'
      /\ Forall (fun o => off <= o <= off') os
      /\ forall (j : nat) pid v o,
           props !! j = Some (pid, v) -> os !! j = Some o ->
           slice (acc ++ t) (Z.to_nat o) (length v) = v
           /\ (S j = length props -> o + len v = len (acc ++ t)).
Proof.
  induction props as [|[pid v] rest IH]; intros k acc offs off Hoff Hmod Hk.
  - exists [], [], off. rewrite !app_nil_r. repeat (split; [done || lia|]). done.
  - cbn [fold_left enumerate_from offset_step value_step].
    assert (0 <= len v) as Hv by (unfold len; lia).
    pose proof (pad_align off (len v) Hmod) as Hal.
    destruct rest as [|r rest].
    + replace (k <? n - 1) with false by (unfold len in Hk; simpl in Hk; lia).
      exists [off], v, (Z.land (off + len v + 3) (Z.lnot 3)).
      split; [done|]. split; [done|]. split; [done|].
      split; [lia|]. split; [constructor; [lia|done]|].
      intros j pid' v' o Hj Ho. destruct j as [|j]; [|done].
      simpl in Hj, Ho. inversion Hj; inversion Ho; subst.
      split.
      * rewrite <- (app_nil_r v') at 1. apply slice_app_at; [unfold len; lia|done].
      * intros _. unfold len. rewrite length_app. lia.
    + replace (k <? n - 1) with true by (unfold len in Hk; simpl in Hk; lia).
      set (pad := bytes_mul [zero] ((4 - len v mod 4) mod 4)).
      assert (len pad = (4 - len v mod 4) mod 4) as Hpad.
      { unfold pad, len. rewrite bytes_mul_zero, length_replicate. lia. }
      destruct (IH (k + 1) ((acc ++ v) ++ pad) (offs ++ [off])
                  (Z.land (off + len v + 3) (Z.lnot 3)))
        as (os & t & off' & Hfo & Hfv & HL & Hle & HF & Hrd).
      { unfold len in *. rewrite !length_app. lia. }
      { rewrite land_lnot3. lia. }
      { unfold len in *. simpl in *. lia. }
      exists (off :: os), (v ++ pad ++ t), off'.
      split; [by rewrite Hfo, <- app_assoc|].
      split; [by rewrite Hfv, <- !app_assoc|].
      split; [simpl in HL |- *; lia|]. split; [lia|]. split.
      { constructor; [lia|]. eapply Forall_impl; [exact HF|].
        intros o [Ho1 Ho2]. split; lia. }
      intros j pid' v' o Hj Ho. destruct j as [|j]; simpl in Hj, Ho.
      * inversion Hj; inversion Ho; subst. split; [|simpl; lia].
        apply slice_app_at; [unfold len; lia|done].
      * destruct (Hrd j pid' v' o Hj Ho) as [H1 H2].
        rewrite <- !app_assoc in H1, H2. split; [exact H1|].
        intros HS. apply H2. simpl in HS |- *. lia.
Qed.

Lemma pack_II_Ok (a b : Z) (x : bytes) :
  pack_II a b = Ok x -> x = le_bytes 4 a ++ le_bytes 4 b /\ in_u32 a /\ in_u32 b.
Proof.
  unfold pack_II, pack_I.
  destruct (pack_uint 4 a) as [u|] eqn:Ea; [|done]. mstep.
  destruct (pack_uint 4 b) as [v|] eqn:Eb; [|done]. mstep.
  apply pack_uint_Ok in Ea as [-> Ha]. apply pack_uint_Ok in Eb as [-> Hb].
  intros H. split; [congruence|]. done.
Qed.

Lemma pack_II_in_range (a b : Z) :
  in_u32 a -> in_u32 b -> pack_II a b = Ok (le_bytes 4 a ++ le_bytes 4 b).
Proof.
  intros Ha Hb. unfold pack_II, pack_I.
  rewrite (pack_uint_in_range 4 a) by exact Ha. mstep.
  by rewrite (pack_uint_in_range 4 b) by exact Hb.
Qed.

Lemma offsets_length (props : list (Z * bytes)) (offs offs' : list Z) (off off' : Z) :
  fold_left offset_step props (offs, off) = (offs', off') ->
  length offs' = (length offs + length props)%nat.
Proof.
  revert offs off. induction props as [|[pid v] rest IH]; intros offs off H.
  - simpl in H. inversion H; subst. simpl. lia.
  - cbn [fold_left offset_step] in H. apply IH in H.
    rewrite length_app in H. simpl in *. lia.
Qed.

(** What [build_prop_set] returns: the size and count fields, the table of
    IDs and offsets, then the values. *)
Lemma build_prop_set_Ok (props : list (Z * bytes)) (ps : bytes) :
  build_prop_set props = Ok ps ->
  exists offsets off t,
    fold_left offset_step props ([], 8 + 8 * len props) = (offsets, off)
    /\ length offsets = length props
    /\ in_u32 off /\ in_u32 (len props)
    /\ Forall (fun o => 0 <= o <= off) offsets
    /\ ps = le_bytes 4 off ++ le_bytes 4 (len props)
            ++ id_table (zip props offsets) ++ t
    /\ (forall (j : nat) pid v o,
          props !! j = Some (pid, v) -> offsets !! j = Some o ->
          slice ps (Z.to_nat o) (length v) = v
          /\ (S j = length props -> o + len v = len ps)).
Proof.
  unfold build_prop_set.
  destruct (fold_left offset_step props ([], 8 + 8 * len props)) as [offsets off] eqn:Hfo.
  pose proof (offsets_length _ _ _ _ _ Hfo) as HLo. simpl in HLo.
  destruct (pack_II off (len props)) as [hd|] eqn:Ehd; [|done]. mstep.
  apply pack_II_Ok in Ehd as (-> & Hoff & Hn).
  destruct (for_each _ _ _) as [tab|] eqn:Htab; [|done]. mstep.
  apply table_loop_Ok in Htab as ->. intros Hps.
  destruct (emit_offsets (len props) props 0
              ((le_bytes 4 off ++ le_bytes 4 (len props)) ++ id_table (zip props offsets))
              [] (8 + 8 * len props))
    as (os & t & off' & Hfo' & Hfv & HL & Hle & HF & Hrd).
  { unfold len. rewrite !length_app, !le_bytes_length, id_table_length, length_zip. lia. }
  { lia. }
  { lia. }
  rewrite Hfo in Hfo'. simpl in Hfo'. inversion Hfo'; subst os off'. clear Hfo'.
  unfold enumerate in Hps. rewrite Hfv in Hps.
  assert (ps = le_bytes 4 off ++ le_bytes 4 (len props)
               ++ id_table (zip props offsets) ++ t) as ->.
  { rewrite <- !app_assoc in Hps. congruence. }
  exists offsets, off, t. split; [done|]. split; [done|].
  split; [exact Hoff|]. split; [exact Hn|]. split.
  { eapply Forall_impl; [exact HF|]. intros o [Ho1 Ho2]. unfold len in Ho1. split; lia. }
  split; [done|].
  intros j pid v o Hj Ho. rewrite <- !app_assoc in Hrd. by apply (Hrd j pid v o).
Qed.

(** Reading the section back: size, count, IDs and offsets. *)
Lemma section_read_at (props : list (Z * bytes)) (offsets : list Z) (off : Z)
    (t : bytes) (j : nat) pid v o :
  props !! j = Some (pid, v) -> offsets !! j = Some o ->
  in_u32 pid -> in_u32 o ->
  let ps := le_bytes 4 off ++ le_bytes 4 (len props)
            ++ id_table (zip props offsets) ++ t in
  u32_at ps (8 + 8 * j) = pid /\ u32_at ps (12 + 8 * j) = o.
Proof.
  intros Hj Hoj Hp Ho ps. unfold ps, u32_at.
  pose proof (lookup_lt_Some _ _ _ Hj) as Hlt.
  pose proof (lookup_lt_Some _ _ _ Hoj) as Hlt'.
  destruct (id_table_read (zip props offsets) j pid v o) as [H1 H2]; [|done|done|].
  { by apply lookup_zip_Some. }
  unfold u32_at in H1, H2. split.
  - rewrite !slice_app_skip by (rewrite ?le_bytes_length; lia).
    rewrite !le_bytes_length.
    replace (8 + 8 * j - 4 - 4)%nat with (8 * j)%nat by lia.
    rewrite slice_app_within by (rewrite id_table_length, length_zip; lia).
    exact H1.
  - rewrite !slice_app_skip by (rewrite ?le_bytes_length; lia).
    rewrite !le_bytes_length.
    replace (12 + 8 * j - 4 - 4)%nat with (4 + 8 * j)%nat by lia.
    rewrite slice_app_within by (rewrite id_table_length, length_zip; lia).
    exact H2.
Qed.

Lemma section_read (props : list (Z * bytes)) (offsets : list Z) (off : Z)
    (t ps : bytes) :
  ps = le_bytes 4 off ++ le_bytes 4 (len props)
       ++ id_table (zip props offsets) ++ t ->
  length offsets = length props ->
  in_u32 off -> in_u32 (len props) ->
  Forall (fun p : Z * bytes => in_u32 (fst p)) props ->
  Forall in_u32 offsets ->
  u32_at ps 0 = off
  /\ u32_at ps 4 = len props
  /\ map (fun k => u32_at ps (8 + 8 * k)) (seq 0 (length props)) = map fst props
  /\ map (fun k => u32_at ps (12 + 8 * k)) (seq 0 (length props)) = offsets.
Proof.
  intros Hps HLo Hoff Hn Hp Ho.
  rewrite Forall_forall in Hp. rewrite Forall_forall in Ho.
  assert (forall (j : nat) pid v o, props !! j = Some (pid, v) -> offsets !! j = Some o ->
            u32_at ps (8 + 8 * j) = pid /\ u32_at ps (12 + 8 * j) = o) as Hat.
  { intros j pid v o Hj Hoj. rewrite Hps. apply (section_read_at _ _ _ _ j pid v o); [done|done| |].
    - apply (Hp (pid, v)). by eapply list_elem_of_lookup_2.
    - apply Ho. by eapply list_elem_of_lookup_2. }
  split; [|split; [|split]].
  - rewrite Hps. unfold u32_at.
    rewrite slice_app_here by (by rewrite le_bytes_length). by apply le_value_le_bytes.
  - rewrite Hps. unfold u32_at.
    rewrite slice_app_skip by (rewrite le_bytes_length; lia). rewrite le_bytes_length.
    simpl Nat.sub. rewrite slice_app_here by (by rewrite le_bytes_length).
    by apply le_value_le_bytes.
  - apply list_eq. intros j. rewrite !list_lookup_fmap.
    destruct (props !! j) as [[pid v]|] eqn:Hj.
    + pose proof (lookup_lt_Some _ _ _ Hj) as Hlt.
      destruct (offsets !! j) as [o|] eqn:Hoj.
      2: { apply lookup_ge_None in Hoj. lia. }
      rewrite lookup_seq_lt by done. simpl. f_equal.
      by destruct (Hat j pid v o Hj Hoj).
    + apply lookup_ge_None in Hj. rewrite lookup_seq_ge by done. done.
  - apply list_eq. intros j. rewrite !list_lookup_fmap.
    destruct (props !! j) as [[pid v]|] eqn:Hj.
    + pose proof (lookup_lt_Some _ _ _ Hj) as Hlt.
      destruct (offsets !! j) as [o|] eqn:Hoj.
      2: { apply lookup_ge_None in Hoj. lia. }
      rewrite lookup_seq_lt by done. simpl. f_equal.
      by destruct (Hat j pid v o Hj Hoj).
    + apply lookup_ge_None in Hj as Hge. rewrite lookup_seq_ge by done.
      symmetry. apply lookup_ge_None. lia.
Qed.

Lemma offsets_bound (props : list (Z * bytes)) (offs offs' : list Z) (off off' : Z) :
  fold_left offset_step props (offs, off) = (offs', off') ->
  off' <= off + values_bound props.
Proof.
  revert offs off. induction props as [|[pid v] rest IH]; intros offs off H.
  - simpl in H. inversion H; subst. simpl. lia.
  - cbn [fold_left offset_step] in H. apply IH in H.
    rewrite land_lnot3 in H. cbn [values_bound fold_right snd].
    fold (values_bound rest). lia.
Qed.

Lemma offsets_range (props : list (Z * bytes)) (offs offs' : list Z) (off off' : Z) :
  fold_left offset_step props (offs, off) = (offs', off') ->
  0 <= off -> Forall (fun o => 0 <= o <= off) offs ->
  off <= off' /\ Forall (fun o => 0 <= o <= off') offs'.
Proof.
  revert offs off. induction props as [|[pid v] rest IH]; intros offs off H H0 HF.
  - simpl in H. inversion H; subst. split; [lia|done].
  - cbn [fold_left offset_step] in H.
    assert (0 <= len v) as Hv by (unfold len; lia).
    pose proof (land_lnot3 (off + len v + 3)) as Hal.
    apply IH in H as [Hle HF'].
    + split; [lia|done].
    + lia.
    + apply Forall_app. split.
      * eapply Forall_impl; [exact HF|]. intros o [Ho1 Ho2]. split; lia.
      * constructor; [lia|done].
Qed.

Lemma build_prop_set_total (props : list (Z * bytes)) :
  Forall (fun p : Z * bytes => in_u32 (fst p)) props ->
  8 + 8 * len props + values_bound props < 2 ^ 32 ->
  exists ps, build_prop_set props = Ok ps.
Proof.
  intros Hp Hb. unfold build_prop_set.
  destruct (fold_left offset_step props ([], 8 + 8 * len props)) as [offsets off] eqn:Hfo.
  pose proof (offsets_length _ _ _ _ _ Hfo) as HLo. simpl in HLo.
  pose proof (offsets_bound _ _ _ _ _ Hfo) as Hoff.
  assert (0 <= len props) as Hn by (unfold len; lia).
  assert (0 <= values_bound props) as Hvb.
  { clear. induction props as [|[pid v] rest IH]; [done|].
    cbn [values_bound fold_right snd]. fold (values_bound rest). unfold len. lia. }
  destruct (offsets_range _ _ _ _ _ Hfo) as [Hle HF]; [lia|done|].
  rewrite (pack_II_in_range off (len props)) by (unfold in_u32; lia). mstep.
  rewrite table_loop_total; [mstep; by eexists|].
  apply Forall_forall. intros [[pid v] o] Hin.
  apply list_elem_of_lookup in Hin as [j Hj].
  apply lookup_zip_Some in Hj as [Hj1 Hj2]. simpl.
  rewrite Forall_forall in Hp. rewrite Forall_forall in HF. split.
  - apply (Hp (pid, v)). by eapply list_elem_of_lookup_2.
  - assert (0 <= o <= off) as Ho by (apply HF; by eapply list_elem_of_lookup_2).
    unfold in_u32. lia.
Qed.

(** ** The summary stream *)

Lemma make_summary_stream_Ok (page_count : Z) (title author : str) (s : bytes) :
  make_summary_stream page_count title author = Ok s ->
  in_i32 page_count
  /\ exists ps,
       build_prop_set (expected_props page_count title author) = Ok ps
       /\ s = stream_header_bytes ++ ps
       /\ section_of s = ps.
Proof.
  unfold make_summary_stream.
  destruct (summary_props page_count title author) as [props|] eqn:Hprops; [|done]. mstep.
  apply summary_props_Ok in Hprops as [-> Hi].
  destruct (build_prop_set _) as [ps|] eqn:Hps; [|done]. mstep.
  rewrite build_stream_header_eq. mstep. intros H.
  assert (s = stream_header_bytes ++ ps) as -> by congruence.
  split; [done|]. exists ps. split; [done|]. split; [done|].
  unfold section_of. by apply drop_app_length'.
Qed.

Lemma expected_props_ids (page_count : Z) (title author : str) :
  map fst (expected_props page_count title author)
  = (if bool_decide (title = []) then [] else [0x02])
    ++ (if bool_decide (author = []) then [] else [0x04]) ++ [0x0E].
Proof.
  unfold expected_props.
  by destruct (bool_decide (title = [])); destruct (bool_decide (author = [])).
Qed.

Lemma expected_props_in_u32 (page_count : Z) (title author : str) :
  Forall (fun p : Z * bytes => in_u32 (fst p))
    (expected_props page_count title author).
Proof.
  unfold expected_props.
  destruct (bool_decide (title = [])); destruct (bool_decide (author = []));
    repeat constructor; unfold in_u32; simpl; lia.
Qed.

Lemma i4_value_length (value : Z) : length (i4_value value) = 6%nat.
Proof. unfold i4_value. by rewrite length_app, !le_bytes_length. Qed.

Lemma str_value_length (text : str) :
  len (str_value text) = 6 + len (str_data text).
Proof.
  unfold str_value, len. rewrite !length_app, !le_bytes_length. lia.
Qed.

Lemma expected_props_bound (page_count : Z) (title author : str) :
  len title < 2 ^ 30 -> len author < 2 ^ 30 ->
  8 + 8 * len (expected_props page_count title author)
  + values_bound (expected_props page_count title author) < 2 ^ 32.
Proof.
  intros Ht Ha. unfold expected_props.
  pose proof (str_data_length title) as [_ HLt].
  pose proof (str_data_length author) as [_ HLa].
  pose proof (str_value_length title) as HVt.
  pose proof (str_value_length author) as HVa.
  pose proof (i4_value_length page_count) as HVi.
  destruct (bool_decide (title = [])); destruct (bool_decide (author = []));
    cbn [app values_bound fold_right snd]; unfold len in *;
    cbn [length]; lia.
Qed.

Lemma expected_props_last (page_count : Z) (title author : str) :
  exists j : nat,
    expected_props page_count title author !! j = Some (0x0E, i4_value page_count)
    /\ S j = length (expected_props page_count title author).
Proof.
  unfold expected_props.
  destruct (bool_decide (title = [])); destruct (bool_decide (author = [])).
  - by exists 0%nat.
  - by exists 1%nat.
  - by exists 1%nat.
  - by exists 2%nat.
Qed.

Lemma make_summary_stream_returns (page_count : Z) (title author : str) :
  in_i32 page_count -> len title < 2 ^ 30 -> len author < 2 ^ 30 ->
  exists s, make_summary_stream page_count title author = Ok s.
Proof.
  intros Hi Ht Ha. unfold make_summary_stream.
  pose proof (str_data_length title) as [_ HLt].
  pose proof (str_data_length author) as [_ HLa].
  rewrite summary_props_total; [|done|unfold in_u32, len in *; lia..]. mstep.
  destruct (build_prop_set_total (expected_props page_count title author))
    as [ps Hps]; [apply expected_props_in_u32|by apply expected_props_bound|].
  rewrite Hps. mstep. rewrite build_stream_header_eq. mstep. by eexists.
Qed.

(** What every returned summary stream holds. *)
Lemma summary_section (page_count : Z) (title author : str) (s : bytes) :
  make_summary_stream page_count title author = Ok s ->
  exists offsets off,
    fold_left offset_step (expected_props page_count title author)
      ([], 8 + 8 * len (expected_props page_count title author)) = (offsets, off)
    /\ section_size_field s = off
    /\ section_count s = len (expected_props page_count title author)
    /\ section_ids s = map fst (expected_props page_count title author)
    /\ section_offsets s = offsets
    /\ length offsets = length (expected_props page_count title author)
    /\ (forall (j : nat) pid v o,
          expected_props page_count title author !! j = Some (pid, v) ->
          offsets !! j = Some o ->
          slice (section_of s) (Z.to_nat o) (length v) = v
          /\ (S j = length (expected_props page_count title author) ->
              o + len v = len (section_of s))).
Proof.
  intros Hs. apply make_summary_stream_Ok in Hs as (Hi & ps & Hps & -> & Hsec).
  apply build_prop_set_Ok in Hps as (offsets & off & t & Hfo & HLo & Hoff & Hn & HF & Hpseq & Hrd).
  assert (Forall in_u32 offsets) as HF'.
  { eapply Forall_impl; [exact HF|]. intros o Ho. unfold in_u32 in *. lia. }
  destruct (section_read _ offsets off t ps Hpseq HLo Hoff Hn
              (expected_props_in_u32 page_count title author) HF')
    as (H0 & H4 & Hids & Hoffs).
  exists offsets, off. split; [done|].
  unfold section_ids, section_offsets, section_size_field, section_count.
  rewrite Hsec, H4.
  replace (Z.to_nat (len (expected_props page_count title author)))
    with (length (expected_props page_count title author)) by (unfold len; lia).
  by rewrite Hids, Hoffs.
Qed.

(** ** The section size of a page-count-only stream (C2) *)

Lemma make_summary_stream_10 : make_summary_stream 10 [] [] = Ok summary10.
Proof. vm_compute. reflexivity. Qed.

(** C2: the code departs from the claim. For [page_count = 10] with empty
    title and author the section holds exactly one property, with ID 0x0E,
    as the claim says, but the size field at its start says 24 while the
    section that is emitted is 22 bytes long: the field is not the true
    length of the section. *)
Theorem C2_section_size_divergence :
  exists s,
    make_summary_stream 10 [] [] = Ok s
    /\ section_count s = 1
    /\ section_ids s = [0x0E]
    /\ section_size_field s = 24
    /\ len (section_of s) = 22
    /\ section_size_field s <> len (section_of s).
Proof.
  exists summary10. split; [exact make_summary_stream_10|].
  vm_compute. repeat split; discriminate.
Qed.

(** ** Which properties a summary stream carries (C10) *)

(** C10: every call of [make_summary_stream] that returns lists the
    page-count property (ID 0x0E) last, whatever the other arguments: last
    in the ID table, and its value is the last six bytes of the section; the
    title property (ID 0x02) and the author property (ID 0x04) are listed
    exactly when the string is not empty, so that an empty string gives what
    an omitted argument gives. The call returns for every signed 32-bit
    page count and strings shorter than 2^30. *)
Theorem C10_summary_properties (page_count : Z) (title author : str) :
  (forall s, make_summary_stream page_count title author = Ok s ->
     section_ids s
     = (if bool_decide (title = []) then [] else [0x02])
       ++ (if bool_decide (author = []) then [] else [0x04]) ++ [0x0E]
     /\ section_count s = len (section_ids s)
     /\ last (section_ids s) = Some 0x0E
     /\ (0x02 ∈ section_ids s <-> title <> [])
     /\ (0x04 ∈ section_ids s <-> author <> [])
     /\ exists o,
          last (section_offsets s) = Some o
          /\ o + 6 = len (section_of s)
          /\ slice (section_of s) (Z.to_nat o) 6
             = le_bytes 2 VT_I4 ++ le_bytes 4 (page_count mod 2 ^ 32))
  /\ (in_i32 page_count -> len title < 2 ^ 30 -> len author < 2 ^ 30 ->
      exists s, make_summary_stream page_count title author = Ok s)
  /\ call_make_summary_stream page_count None (Some author)
     = call_make_summary_stream page_count (Some []) (Some author)
  /\ call_make_summary_stream page_count (Some title) None
     = call_make_summary_stream page_count (Some title) (Some [])
  /\ call_make_summary_stream page_count None None
     = call_make_summary_stream page_count (Some []) (Some []).
Proof.
  split; [|split; [by apply make_summary_stream_returns|done]].
  intros s Hs.
  destruct (summary_section _ _ _ _ Hs)
    as (offsets & off & Hfo & Hsize & Hcount & Hids & Hoffs & HLo & Hrd).
  rewrite expected_props_ids in Hids.
  split; [exact Hids|].
  split.
  { rewrite Hcount, Hids. unfold len. rewrite <- (length_map fst), expected_props_ids. done. }
  split.
  { rewrite Hids, !app_assoc. apply last_snoc. }
  split; [|split].
  - rewrite Hids. case_bool_decide as Ht; case_bool_decide as Ha; simpl;
      rewrite ?elem_of_cons, ?elem_of_nil; split; intros H; try done;
      try (by left); destruct H as [H|H]; try done; destruct H as [H|H]; done.
  - rewrite Hids. case_bool_decide as Ht; case_bool_decide as Ha; simpl;
      rewrite ?elem_of_cons, ?elem_of_nil; split; intros H; try done;
      try (by left); try (by right; left);
      destruct H as [H|H]; try done; destruct H as [H|H]; done.
  - destruct (expected_props_last page_count title author) as (j & Hj & HS).
    destruct (offsets !! j) as [o|] eqn:Ho.
    2: { apply lookup_ge_None in Ho. lia. }
    exists o. destruct (Hrd j _ _ o Hj Ho) as [Hv HL].
    specialize (HL HS). rewrite i4_value_length in Hv.
    unfold len in HL at 1. rewrite i4_value_length in HL.
    split; [|split; [lia|exact Hv]].
    rewrite Hoffs, last_lookup, HLo, <- HS. exact Ho.
Qed.

Lemma make_summary_stream_7 : make_summary_stream 7 (lit "T") (lit "A") = Ok summary7.
Proof. vm_compute. reflexivity. Qed.

Lemma C10_summary_properties_witness :
  (section_ids summary7 = [0x02; 0x04; 0x0E]
   /\ section_count summary7 = 3
   /\ last (section_ids summary7) = Some 0x0E)
  /\ exists s, make_summary_stream 7 (lit "T") (lit "A") = Ok s.
Proof.
  destruct (C10_summary_properties 7 (lit "T") (lit "A")) as (H1 & H2 & _).
  split.
  - destruct (H1 summary7 make_summary_stream_7) as (Hids & Hcount & Hlast & _).
    split; [exact Hids|]. split; [|exact Hlast]. rewrite Hcount, Hids. reflexivity.
  - apply H2; [unfold in_i32; lia|vm_compute; reflexivity|vm_compute; reflexivity].
Defined.

(** * Further properties of the writer *)

(** ** When [build_ole2] returns, and what it raises otherwise *)

Lemma for_each_raises_only {A S : Type} (body : S -> A -> result S) (e : exn)
    (l : list A) (s0 : S) (e' : exn) :
  (forall s x e', body s x = Raise e' -> e' = e) ->
  for_each l s0 body = Raise e' -> e' = e.
Proof.
  intros Hbody. revert s0. induction l as [|x l IH]; intros s0 H; [done|].
  cbn [for_each] in H. destruct (body s0 x) as [s1|e1] eqn:Hb.
  - mstep in H. by apply (IH s1).
  - mstep in H. inversion H; subst. by apply (Hbody s0 x).
Qed.

Lemma norm_index_raises {A : Type} (l : list A) (i : Z) (e : exn) :
  norm_index l i = Raise e -> e = IndexError.
Proof.
  unfold norm_index. destruct (_ && _); [done|]. destruct (_ && _); [done|].
  by intros [= <-].
Qed.

Lemma get_item_raises {A : Type} (l : list A) (i : Z) (e : exn) :
  get_item l i = Raise e -> e = IndexError.
Proof.
  unfold get_item. destruct (norm_index l i) as [k|e1] eqn:Hk.
  - mstep. destruct (l !! k); [done|]. by intros [= <-].
  - mstep. intros [= <-]. by apply norm_index_raises in Hk.
Qed.

Lemma set_item_raises {A : Type} (l : list A) (i : Z) (v : A) (e : exn) :
  set_item l i v = Raise e -> e = IndexError.
Proof.
  unfold set_item. destruct (norm_index l i) as [k|e1] eqn:Hk; mstep; [done|].
  intros [= <-]. by apply norm_index_raises in Hk.
Qed.

Lemma build_fat_raises (streams : list stream) (starts : list Z) (e : exn) :
  build_fat streams starts = Raise e -> e = IndexError.
Proof.
  rewrite build_fat_unfold. apply for_each_raises_only.
  intros fat [i [name data]] e' H. cbn beta iota zeta in H.
  destruct (get_item starts i) as [s|e1] eqn:Hg; mstep in H.
  - revert H. apply for_each_raises_only. intros f j e2. apply set_item_raises.
  - inversion H; subst. by apply get_item_raises in Hg.
Qed.

Lemma chain_loop_Ok_bound (fat fat' : list Z) (s n : Z) :
  0 <= s -> 1 <= n ->
  for_each (range n) fat (fun fat j =>
    set_item fat (s + j) (if j <? n - 1 then s + j + 1 else ENDOFCHAIN)) = Ok fat' ->
  s + n <= len fat /\ length fat' = length fat.
Proof.
  intros Hs Hn Hrun.
  apply (for_each_inv_n _
    (fun (m : nat) f => length f = length fat /\
       (m = 0%nat \/ s + Z.of_nat m <= len fat))) in Hrun.
  - destruct Hrun as [HL Hb]. unfold range in Hb. rewrite length_seqZ in Hb.
    split; [lia|done].
  - split; [done|by left].
  - intros m x f f1 Hx (HL & Hb) Hset.
    apply lookup_seqZ in Hx as [-> Hm].
    apply set_item_Ok_nonneg in Hset as [Hlt ->]; [|lia].
    split; [by rewrite length_insert|]. right. unfold len in *. lia.
Qed.

Lemma build_fat_Ok_bound (streams : list stream) (fat : list Z) :
  build_fat streams (sector_starts streams) = Ok fat ->
  total_sectors streams <= 128.
Proof.
  rewrite build_fat_unfold, total_sectors_eq. intros Hrun.
  apply (for_each_inv_n _
    (fun (m : nat) f => length f = 128%nat
       /\ 3 + sectors_sum (take m streams) <= 128)) in Hrun.
  - destruct Hrun as [_ Hb]. unfold enumerate in Hb.
    by rewrite length_enumerate_from, firstn_all in Hb.
  - split; [done|]. simpl. lia.
  - intros m [i [name data]] f f1 Hx (HL & Hb) Hbody.
    apply lookup_enumerate_from in Hx as [Hi Hx]. simpl in Hi, Hx. subst i.
    cbn beta iota zeta in Hbody.
    rewrite Z.add_0_l, (get_item_lookup _ _ _ (lookup_sector_starts _ _ _ Hx)) in Hbody.
    mstep in Hbody.
    pose proof (sectors_sum_nonneg (take m streams)) as H0.
    apply chain_loop_Ok_bound in Hbody as [Hle HL1];
      [|lia|apply nsectors_pos].
    rewrite (sectors_sum_take_S _ _ _ _ Hx). unfold len in Hle. split; lia.
Qed.

Lemma valid_name_of_entry (name : str) obj_type start size child left right e :
  _dir_entry name obj_type start size child left right = Ok e ->
  valid_name name = true /\ length e = 128%nat.
Proof.
  intros H. apply _dir_entry_Ok in H as (u & Hu & HLu & Hr & ->).
  split; [|by apply entry_length].
  apply encode_utf16_le_Ok in Hu as [Hs HL2].
  unfold valid_name. rewrite Hs. simpl. lia.
Qed.

Lemma build_dir_Ok_capacity (streams : list stream) (starts : list Z) (ds : bytes) :
  build_dir streams starts = Ok ds ->
  (length streams <= 3)%nat
  /\ Forall (fun s : stream => valid_name (fst s) = true) streams.
Proof.
  unfold build_dir.
  destruct (_dir_entry _ _ _ _ _ _ _) as [root|] eqn:Hroot; [|done]. mstep.
  apply valid_name_of_entry in Hroot as [_ HLroot].
  destruct (for_each _ _ _) as [entries|] eqn:Hrun; [|done]. mstep.
  apply (for_each_inv_n _
    (fun (m : nat) (entries : list bytes) =>
       length entries = S m
       /\ Forall (fun e => length e = 128%nat) entries
       /\ forall (k : nat) name data, (k < m)%nat -> streams !! k = Some (name, data) ->
            valid_name name = true)) in Hrun.
  - destruct Hrun as (HL & HF & Hnames).
    unfold enumerate in HL, Hnames. rewrite length_enumerate_from in HL, Hnames.
    destruct (len (concat (pad_entries 4 entries)) =? SECTOR) eqn:E; [|done].
    intros _. apply Z.eqb_eq in E. rewrite pad_entries_eq in E.
    unfold len, SECTOR in E.
    rewrite (length_concat_uniform _ 128) in E.
    2: { apply Forall_app. split; [done|]. apply Forall_replicate. by rewrite length_replicate. }
    rewrite length_app, length_replicate in E.
    split; [lia|]. apply Forall_forall. intros [name data] Hin.
    apply list_elem_of_lookup in Hin as [k Hk].
    apply (Hnames k name data); [|done]. by eapply lookup_lt_Some.
  - split; [done|]. split; [by constructor|]. intros k name data Hk. lia.
  - intros m [i [name data]] es es1 Hx (HL & HF & Hnames) Hbody.
    apply lookup_enumerate_from in Hx as [Hi Hx]. simpl in Hi, Hx. subst i.
    cbn beta iota zeta in Hbody.
    destruct (get_item starts (0 + Z.of_nat m)) as [s|]; [|done]. mstep in Hbody.
    destruct (_dir_entry name 2 s _ _ _ _) as [e|] eqn:He; [|done]. mstep in Hbody.
    apply valid_name_of_entry in He as [Hv HLe].
    assert (es1 = es ++ [e]) as -> by congruence.
    split; [rewrite length_app; simpl; lia|]. split.
    + apply Forall_app. split; [done|]. by constructor.
    + intros k name' data' Hk Hx'. destruct (decide (k = m)) as [->|Hne].
      * rewrite Hx in Hx'. by inversion Hx'; subst.
      * apply (Hnames k name' data'); [lia|done].
Qed.

(** X1: [build_ole2] returns an image exactly for the stream lists within
    capacity: at most 3 streams, every name encodable in at most 31 UTF-16
    code units, and at most 128 sectors in all. *)
Theorem build_ole2_returns_iff (streams : list stream) :
  (exists img, build_ole2 streams = Ok img) <-> within_capacity streams = true.
Proof.
  split.
  - intros [img H]. apply build_ole2_Ok in H as (fat & ds & Hfat & Hds & _).
    apply build_fat_Ok_bound in Hfat. apply build_dir_Ok_capacity in Hds as [Hn Hnames].
    unfold within_capacity. rewrite !andb_true_iff. split; [split|].
    + unfold len. lia.
    + apply forallb_forall. intros s Hs. rewrite Forall_forall in Hnames.
      apply Hnames. by apply list_elem_of_In.
    + lia.
  - intros Hcap. destruct (build_ole2_total streams Hcap) as (fat & ds & _ & _ & _ & _ & _ & H).
    by eexists.
Qed.

(** X2: a stream list that needs more than 128 sectors makes [build_ole2]
    raise IndexError, from the FAT loop, whatever the names and their
    number. *)
Theorem build_ole2_too_many_sectors (streams : list stream) :
  128 < total_sectors streams -> build_ole2 streams = Raise IndexError.
Proof.
  intros Hbig. unfold build_ole2.
  pose proof (build_fat_Ok_bound streams) as Hb.
  pose proof (build_fat_raises streams (sector_starts streams)) as Hr.
  unfold sector_starts in Hb, Hr.
  destruct (assign_sectors streams) as [starts cur] eqn:Ha. cbn [fst] in Hb, Hr.
  destruct (build_fat streams starts) as [fat|e].
  - specialize (Hb fat eq_refl). lia.
  - mstep. by rewrite (Hr e eq_refl).
Qed.

Lemma build_ole2_too_many_sectors_witness :
  build_ole2 [(lit "A", replicate (Z.to_nat 65000) zero)] = Raise IndexError.
Proof.
  apply (build_ole2_too_many_sectors [(lit "A", replicate (Z.to_nat 65000) zero)]).
  vm_compute. reflexivity.
Defined.

Lemma sectors_sum_ge_length (streams : list stream) : len streams <= sectors_sum streams.
Proof.
  induction streams as [|[name data] rest IH]; [done|].
  cbn [sectors_sum]. pose proof (nsectors_pos data). unfold len in *. simpl length. lia.
Qed.

Lemma stream_entry_range_any (streams : list stream) (k : nat) name data :
  3 + sectors_sum streams <= 128 ->
  streams !! k = Some (name, data) ->
  fields_in_range 2 (3 + sectors_sum (take k streams)) (len data)
    NOSTREAM NOSTREAM
    (if Z.of_nat k + 1 <? len streams then Z.of_nat k + 2 else NOSTREAM).
Proof.
  intros Hcap Hk.
  pose proof (sectors_sum_take_S _ _ _ _ Hk) as HS.
  pose proof (sectors_sum_take_le streams (S k)) as Hle.
  pose proof (sectors_sum_nonneg (take k streams)) as H0.
  pose proof (nsectors_bound data) as Hb.
  pose proof (lookup_lt_Some _ _ _ Hk) as Hlt.
  pose proof (sectors_sum_ge_length streams) as Hlen.
  unfold fields_in_range, in_u32, NOSTREAM, len in *.
  destruct (Z.of_nat k + 1 <? Z.of_nat (length streams)); lia.
Qed.

(** The directory loop returns one 128-byte entry per stream, however many
    streams there are. *)
Lemma dir_entries_total (streams : list stream) :
  Forall (fun s : stream => valid_name (fst s) = true) streams ->
  3 + sectors_sum streams <= 128 ->
  exists entries : list bytes,
    for_each (enumerate streams) [root_entry streams]
      (fun entries '(i, (name, data)) =>
         let right := if i + 1 <? len streams then i + 2 else NOSTREAM in
         s ← get_item (sector_starts streams) i;
         e ← _dir_entry name 2 s (len data) NOSTREAM NOSTREAM right;
         Ok (entries ++ [e])) = Ok entries
    /\ length entries = S (length streams)
    /\ Forall (fun e => length e = 128%nat) entries.
Proof.
  intros Hnames Hsec.
  destruct (for_each_total_n
    (fun entries '(i, (name, data)) =>
       let right := if i + 1 <? len streams then i + 2 else NOSTREAM in
       s ← get_item (sector_starts streams) i;
       e ← _dir_entry name 2 s (len data) NOSTREAM NOSTREAM right;
       Ok (entries ++ [e]))
    (fun m (entries : list bytes) =>
       length entries = S m /\ Forall (fun e => length e = 128%nat) entries)
    (enumerate streams) [root_entry streams]) as (entries & Hrun & HL & HF).
  - split; [done|]. constructor; [|done]. unfold root_entry.
    apply (entry_length (name_bytes (lit "Root Entry"))), root_name_ok.
  - intros m [i [name data]] entries Hx (HL & HF).
    apply lookup_enumerate_from in Hx as [Hi Hx]. simpl in Hi, Hx. subst i.
    cbn beta iota zeta.
    rewrite Z.add_0_l, (get_item_lookup _ _ _ (lookup_sector_starts _ _ _ Hx)). mstep.
    pose proof (stream_name_ok _ _ _ _ Hnames Hx) as HLu.
    rewrite Forall_forall in Hnames.
    destruct (valid_name_bytes name) as [Hu _].
    { apply (Hnames (name, data)). by eapply list_elem_of_lookup_2. }
    pose proof (stream_entry_range_any _ _ _ _ Hsec Hx) as Hr.
    rewrite (_dir_entry_total _ _ _ _ _ _ _ _ Hu HLu Hr). mstep.
    eexists. split; [done|]. split; [rewrite length_app; simpl; lia|].
    apply Forall_app. split; [done|]. constructor; [|done]. by apply entry_length.
  - exists entries. unfold enumerate in HL. rewrite length_enumerate_from in HL. done.
Qed.

(** X3: more than 3 streams that would otherwise fit (valid names, at most
    128 sectors) make [build_ole2] raise AssertionError: the directory
    sector comes out longer than 512 bytes and the assertion on its length
    stops the call. No image with a malformed directory is returned. *)
Theorem build_ole2_too_many_streams (streams : list stream) :
  Forall (fun s : stream => valid_name (fst s) = true) streams ->
  total_sectors streams <= 128 ->
  (3 < length streams)%nat ->
  build_ole2 streams = Raise AssertionError.
Proof.
  intros Hnames Hsec Hn. rewrite total_sectors_eq in Hsec.
  destruct (build_fat_total streams) as (fat & Hfat & HL & HF & _).
  { rewrite total_sectors_eq. lia. }
  assert (Forall in_u32 fat) as HF'.
  { eapply Forall_impl; [exact HF|]. intros v. apply fat_value_in_u32.
    rewrite total_sectors_eq. lia. }
  destruct (dir_entries_total streams Hnames Hsec) as (entries & Hrun & HLe & HFe).
  unfold build_ole2. unfold sector_starts in Hfat, Hrun.
  destruct (assign_sectors streams) as [starts cur]. cbn [fst] in Hfat, Hrun.
  rewrite Hfat. mstep. rewrite (pack_128I_total fat HL HF'). mstep.
  rewrite minifat_eq. mstep.
  unfold build_dir. rewrite root_entry_total. mstep. rewrite Hrun. mstep.
  rewrite pad_entries_eq.
  replace (4 `min` (4 - length entries))%nat with 0%nat by lia.
  cbn [replicate]. rewrite app_nil_r. unfold len, SECTOR.
  rewrite (length_concat_uniform _ _ HFe).
  destruct (Z.of_nat (128 * length entries) =? 512) eqn:E; [|done].
  apply Z.eqb_eq in E. lia.
Qed.

Lemma build_ole2_too_many_streams_witness :
  build_ole2 [(lit "A", [zero]); (lit "B", [zero]); (lit "C", [zero]); (lit "D", [zero])]
  = Raise AssertionError.
Proof.
  apply build_ole2_too_many_streams.
  - repeat constructor.
  - vm_compute. discriminate.
  - simpl. lia.
Defined.

(** ** What [_dir_entry] raises *)

Lemma utf16_le_char_not_scalar (c : Z) :
  is_scalar c = false -> utf16_le_char c = Raise UnicodeEncodeError.
Proof.
  unfold is_scalar, utf16_le_char. intros H.
  destruct (c <? 0) eqn:E1; [done|]. destruct (0x10FFFF <? c) eqn:E2; [done|].
  cbn [orb]. destruct ((0xD800 <=? c) && (c <=? 0xDFFF)) eqn:E3; [done|].
  destruct (0 <=? c) eqn:E4; [|lia]. destruct (c <=? 0x10FFFF) eqn:E5; [|lia].
  done.
Qed.

Lemma encode_loop_not_scalar (name : str) (acc : bytes) :
  forallb is_scalar name = false ->
  for_each name acc (fun acc c => x ← utf16_le_char c; Ok (acc ++ x))
  = Raise UnicodeEncodeError.
Proof.
  revert acc. induction name as [|c name IH]; intros acc H; [done|].
  cbn [forallb] in H. cbn [for_each].
  destruct (is_scalar c) eqn:Hc.
  - destruct (utf16_le_char_scalar c Hc) as (x & -> & _). mstep. by apply IH.
  - by rewrite utf16_le_char_not_scalar.
Qed.

(** X4: a name that holds a lone surrogate (or a value that is no code
    point) makes [_dir_entry] raise UnicodeEncodeError, whatever the other
    arguments. *)
Theorem _dir_entry_unencodable_name (name : str)
    (obj_type start size child left right : Z) :
  forallb is_scalar name = false ->
  _dir_entry name obj_type start size child left right = Raise UnicodeEncodeError.
Proof.
  intros H. unfold _dir_entry, encode_utf16_le.
  by rewrite encode_loop_not_scalar.
Qed.

Lemma _dir_entry_unencodable_name_witness :
  _dir_entry [0x41; 0xD800] 2 3 0 NOSTREAM NOSTREAM NOSTREAM = Raise UnicodeEncodeError.
Proof. apply _dir_entry_unencodable_name. reflexivity. Defined.

(** X5: an encodable name of more than 31 UTF-16 code units (and at most
    32766, so that its length field still fits) makes [_dir_entry] raise
    AssertionError when the numbers fit their fields: the name field
    outgrows its 64 bytes and no entry is returned. *)
Theorem _dir_entry_long_name (name : str)
    (obj_type start size child left right : Z) :
  forallb is_scalar name = true ->
  31 < utf16_units name <= 32766 ->
  fields_in_range obj_type start size child left right ->
  _dir_entry name obj_type start size child left right = Raise AssertionError.
Proof.
  intros Hs Hu (Ht & Hstart & Hsize & Hchild & Hleft & Hright).
  unfold in_u32 in *.
  destruct (encode_utf16_le_total name Hs) as (u & Henc & HL).
  unfold _dir_entry, pack_H, pack_B, pack_I, pack_Q. rewrite Henc. mstep.
  repeat (rewrite pack_uint_in_range by (simpl; lia); mstep).
  rewrite bytes_mul_zero. rewrite <- !app_assoc. change (Z.to_nat 16) with 16%nat.
  change (ljust (u ++ [zero; zero]) 64 zero ++ _)
    with (entry_bytes u obj_type start size child left right).
  rewrite entry_bytes_length.
  replace (Z.max (len u + 2) 64 + 64 =? 128) with false by lia. done.
Qed.

Lemma _dir_entry_long_name_witness :
  _dir_entry (lit "A stream name of thirty-two chars") 2 3 0 NOSTREAM NOSTREAM NOSTREAM
  = Raise AssertionError.
Proof.
  apply _dir_entry_long_name.
  - reflexivity.
  - vm_compute. split; [reflexivity|discriminate].
  - unfold fields_in_range, in_u32, NOSTREAM. lia.
Defined.

(** ** What the directory records of a stream *)

Lemma utf16_code_units_table (l : list Z) :
  Forall (fun a => 0 <= a < 65536) l ->
  utf16_code_units (concat (map (le_bytes 2) l)) = l.
Proof.
  induction 1 as [|a l Ha HF IH]; [done|].
  cbn [map concat].
  change (le_bytes 2 a) with [byte_of_Z (a mod 256); byte_of_Z ((a / 256) mod 256)].
  cbn [app utf16_code_units]. rewrite IH.
  rewrite !Z_of_byte_of_Z. f_equal. lia.
Qed.

Lemma utf16_le_char_units (c : Z) (x : bytes) :
  utf16_le_char c = Ok x ->
  x = concat (map (le_bytes 2) (code_units c))
  /\ Forall (fun a => 0 <= a < 65536) (code_units c).
Proof.
  unfold utf16_le_char, code_units.
  destruct (c <? 0) eqn:E1; [done|]. destruct (0x10FFFF <? c) eqn:E2; [done|].
  cbn [orb]. destruct ((0xD800 <=? c) && (c <=? 0xDFFF)) eqn:E3; [done|].
  destruct (c <? 0x10000) eqn:E4; intros H.
  - split; [cbn [map concat]; rewrite app_nil_r; congruence|].
    constructor; [lia|done].
  - split; [cbn [map concat]; rewrite app_nil_r; congruence|].
    repeat constructor; lia.
Qed.

Lemma encode_loop_units (name : str) (acc b : bytes) :
  for_each name acc (fun acc c => x ← utf16_le_char c; Ok (acc ++ x)) = Ok b ->
  b = acc ++ concat (map (le_bytes 2) (name_code_units name))
  /\ Forall (fun a => 0 <= a < 65536) (name_code_units name).
Proof.
  revert acc. induction name as [|c name IH]; intros acc H.
  - inversion H. split; [by rewrite app_nil_r|done].
  - cbn [for_each] in H. destruct (utf16_le_char c) as [x|] eqn:Hx; [|done].
    mstep in H. apply utf16_le_char_units in Hx as [-> HFc].
    apply IH in H as [-> HF]. unfold name_code_units. cbn [flat_map].
    rewrite map_app, concat_app, app_assoc. split; [done|].
    by apply Forall_app.
Qed.

Lemma name_bytes_units (name : str) :
  valid_name name = true ->
  utf16_code_units (name_bytes name) = name_code_units name.
Proof.
  intros Hv. destruct (valid_name_bytes name Hv) as [Hu _].
  apply (encode_loop_units name []) in Hu as [-> HF].
  by apply utf16_code_units_table.
Qed.

Lemma bmp_code_units (name : str) :
  forallb (fun c => c <? 0x10000) name = true -> name_code_units name = name.
Proof.
  induction name as [|c name IH]; [done|].
  cbn [forallb]. intros H. apply andb_prop in H as [Hc Hn].
  unfold name_code_units, code_units in *. cbn [flat_map]. rewrite Hc.
  simpl. f_equal. by apply IH.
Qed.

Section entry_name.
Variables (name_u : bytes) (obj_type start size child left right : Z).
Hypothesis Hname : len name_u <= 62.
Hypothesis Hrange : fields_in_range obj_type start size child left right.

Lemma entry_name_eq :
  entry_name (entry_bytes name_u obj_type start size child left right)
  = utf16_code_units name_u.
Proof.
  unfold entry_name. rewrite entry_name_len_eq by done.
  replace (Z.to_nat (len name_u + 2 - 2)) with (length name_u) by (unfold len; lia).
  f_equal. unfold entry_bytes, ljust. rewrite <- !app_assoc.
  by apply slice_app_here.
Qed.
End entry_name.

(** X6: for every stream list within capacity, directory entry k + 1 of the
    image records stream k: its name as UTF-16 code units (the name itself
    when it has no character beyond the BMP), the name length in bytes with
    the terminator, type 2, the start sector assigned to it and the byte
    length of its payload. *)
Theorem dir_entry_records_stream (streams : list stream) :
  within_capacity streams = true ->
  exists img,
    build_ole2 streams = Ok img
    /\ forall (k : nat) name data s,
         streams !! k = Some (name, data) ->
         sector_starts streams !! k = Some s ->
         let e := dir_entry_of img (S k) in
         entry_name e = name_code_units name
         /\ (forallb (fun c => c <? 0x10000) name = true -> entry_name e = name)
         /\ entry_name_len e = 2 * utf16_units name + 2
         /\ entry_type e = 2
         /\ entry_start e = s
         /\ entry_size e = len data.
Proof.
  intros Hcap.
  destruct (build_ole2_total streams Hcap) as (fat & ds & _ & Hds & HL & HF & HLd & Himg).
  destruct (build_dir_total streams Hcap) as (ds' & Hds' & _ & _ & Hstream & _).
  rewrite Hds in Hds'. inversion Hds'; subst ds'. clear Hds'.
  apply within_capacity_unfold in Hcap as (Hn & Hnames & Hsec).
  eexists. split; [exact Himg|].
  intros k name data s Hk Hs e. unfold e. clear e.
  rewrite (lookup_sector_starts _ _ _ Hk) in Hs. inversion Hs; subst s. clear Hs.
  rewrite dir_entry_image by done. rewrite (Hstream k name data Hk).
  pose proof (stream_name_ok _ _ _ _ Hnames Hk) as Hname.
  pose proof (stream_entry_range _ _ _ _ Hn Hsec Hk) as Hr.
  assert (valid_name name = true) as Hv.
  { rewrite Forall_forall in Hnames. apply (Hnames (name, data)).
    by eapply list_elem_of_lookup_2. }
  unfold stream_entry.
  rewrite entry_name_eq, entry_name_len_eq, entry_type_eq, entry_start_eq, entry_size_eq
    by done.
  rewrite name_bytes_units by done.
  split; [done|]. split; [apply bmp_code_units|]. split; [|done].
  destruct (valid_name_bytes name Hv) as [Hu _].
  apply encode_utf16_le_Ok in Hu as [_ ->]. done.
Qed.

Lemma dir_entry_records_stream_witness :
  exists img,
    build_ole2 [(lit "A", [zero]); (lit "Bc", [])] = Ok img
    /\ forall (k : nat) name data s,
         [(lit "A", [zero]); (lit "Bc", [])] !! k = Some (name, data) ->
         sector_starts [(lit "A", [zero]); (lit "Bc", [])] !! k = Some s ->
         let e := dir_entry_of img (S k) in
         entry_name e = name_code_units name
         /\ (forallb (fun c => c <? 0x10000) name = true -> entry_name e = name)
         /\ entry_name_len e = 2 * utf16_units name + 2
         /\ entry_type e = 2
         /\ entry_start e = s
         /\ entry_size e = len data.
Proof.
  apply (dir_entry_records_stream [(lit "A", [zero]); (lit "Bc", [])]).
  vm_compute. reflexivity.
Defined.

(** ** Where the payloads are *)

Lemma empty_payloads_cons (name : str) (data : bytes) (rest : list stream) :
  empty_payloads ((name, data) :: rest)
  = (if bool_decide (data = []) then 1 else 0) + empty_payloads rest.
Proof.
  unfold empty_payloads, len. rewrite filter_cons. cbn [snd].
  case_bool_decide as E; destruct (decide (data = [])); try done; simpl length; lia.
Qed.

Lemma empty_payloads_nonneg (streams : list stream) : 0 <= empty_payloads streams.
Proof. unfold empty_payloads, len. lia. Qed.

Lemma pad_sector_sectors (data : bytes) :
  len (pad_sector data)
  = 512 * nsectors data - (if bool_decide (data = []) then 512 else 0).
Proof.
  rewrite pad_sector_length. unfold ceil_div, nsectors, SECTOR, len.
  case_bool_decide as E.
  - subst data. done.
  - destruct data as [|b data]; [done|]. simpl length. lia.
Qed.

Lemma body_prefix_length (streams : list stream) :
  len (concat (map (fun s : stream => pad_sector (snd s)) streams))
  = 512 * (sectors_sum streams - empty_payloads streams).
Proof.
  induction streams as [|[name data] rest IH]; [done|].
  cbn [map concat snd sectors_sum]. rewrite empty_payloads_cons.
  pose proof (pad_sector_sectors data) as Hp.
  unfold len in *. rewrite length_app.
  destruct (bool_decide (data = [])); lia.
Qed.

Lemma empty_payloads_take_le (streams : list stream) (k : nat) :
  empty_payloads (take k streams) <= sectors_sum (take k streams).
Proof.
  induction (take k streams) as [|[name data] rest IH]; [done|].
  rewrite empty_payloads_cons. cbn [sectors_sum].
  pose proof (nsectors_pos data). destruct (bool_decide (data = [])); lia.
Qed.

(** X7: for every stream list within capacity, the bytes of stream k, with
    their zero padding, lie in the image at byte
    512 * (start_k + 1 - e), where e is the number of empty payloads before
    stream k: an empty payload is given a sector in the FAT and no bytes in
    the file. When no earlier payload is empty, the payload is read back at
    its start sector. *)
Theorem payload_position (streams : list stream) :
  within_capacity streams = true ->
  exists img,
    build_ole2 streams = Ok img
    /\ forall (k : nat) name data s,
         streams !! k = Some (name, data) ->
         sector_starts streams !! k = Some s ->
         slice img (Z.to_nat (512 * (s + 1 - empty_payloads (take k streams))))
               (length (pad_sector data)) = pad_sector data
         /\ (empty_payloads (take k streams) = 0 ->
             slice img (Z.to_nat (512 * (s + 1))) (length data) = data).
Proof.
  intros Hcap.
  destruct (build_ole2_total streams Hcap) as (fat & ds & _ & _ & HL & HF & HLd & Himg).
  eexists. split; [exact Himg|].
  intros k name data s Hk Hs.
  rewrite (lookup_sector_starts _ _ _ Hk) in Hs. inversion Hs; subst s. clear Hs.
  pose proof (body_prefix_length (take k streams)) as Hpre.
  pose proof (empty_payloads_take_le streams k) as Hle.
  pose proof (empty_payloads_nonneg (take k streams)) as H0.
  set (pre := concat (map (fun s : stream => pad_sector (snd s)) (take k streams))) in *.
  set (post := concat (map (fun s : stream => pad_sector (snd s)) (drop (S k) streams))).
  assert (build_body streams = pre ++ pad_sector data ++ post) as ->.
  { rewrite build_body_eq.
    rewrite <- (take_drop_middle streams k (name, data) Hk) at 1.
    by rewrite map_app, concat_app. }
  assert (forall (b c : bytes),
            slice (header_bytes ++ concat (map (le_bytes 4) fat) ++ ds ++ minifat_bytes
                   ++ pre ++ b ++ c)
                  (Z.to_nat (512 * (3 + sectors_sum (take k streams) + 1
                                    - empty_payloads (take k streams))))
                  (length b) = b) as Hat.
  { intros b c.
    replace (header_bytes ++ concat (map (le_bytes 4) fat) ++ ds ++ minifat_bytes
             ++ pre ++ b ++ c)
      with ((header_bytes ++ concat (map (le_bytes 4) fat) ++ ds ++ minifat_bytes ++ pre)
            ++ b ++ c) by (by rewrite <- !app_assoc).
    apply slice_app_at; [|done].
    rewrite !length_app, header_bytes_length, length_table, HL, HLd, minifat_bytes_length.
    unfold len in Hpre. lia. }
  split.
  - apply Hat.
  - intros He. rewrite He in Hat. unfold pad_sector. rewrite <- app_assoc.
    replace (512 * (3 + sectors_sum (take k streams) + 1))
      with (512 * (3 + sectors_sum (take k streams) + 1 - 0)) by lia.
    apply Hat.
Qed.

Lemma payload_position_witness :
  exists img,
    build_ole2 [(lit "A", []); (lit "B", [zero; zero])] = Ok img
    /\ forall (k : nat) name data s,
         [(lit "A", @nil byte); (lit "B", [zero; zero])] !! k = Some (name, data) ->
         sector_starts [(lit "A", []); (lit "B", [zero; zero])] !! k = Some s ->
         slice img
           (Z.to_nat (512 * (s + 1 - empty_payloads
                                       (take k [(lit "A", []); (lit "B", [zero; zero])]))))
           (length (pad_sector data)) = pad_sector data
         /\ (empty_payloads (take k [(lit "A", @nil byte); (lit "B", [zero; zero])]) = 0 ->
             slice img (Z.to_nat (512 * (s + 1))) (length data) = data).
Proof.
  apply (payload_position [(lit "A", []); (lit "B", [zero; zero])]).
  vm_compute. reflexivity.
Defined.

(** X8: for every stream list within capacity, the image is
    512 * (total_sectors + 1 - e) bytes long, where e is the number of empty
    payloads: the header and every sector the FAT accounts for, less one
    sector for each empty payload. *)
Theorem image_length_sectors (streams : list stream) :
  within_capacity streams = true ->
  exists img,
    build_ole2 streams = Ok img
    /\ len img = 512 * (total_sectors streams + 1 - empty_payloads streams).
Proof.
  intros Hcap.
  destruct (build_ole2_total streams Hcap) as (fat & ds & _ & _ & HL & HF & HLd & Himg).
  eexists. split; [exact Himg|].
  pose proof (body_prefix_length streams) as Hb. rewrite <- build_body_eq in Hb.
  rewrite total_sectors_eq.
  unfold len in *. rewrite layout_length by (by rewrite ?length_table, ?HL). lia.
Qed.

Lemma image_length_sectors_witness :
  exists img,
    build_ole2 [(lit "A", []); (lit "B", [zero])] = Ok img
    /\ len img
       = 512 * (total_sectors [(lit "A", []); (lit "B", [zero])] + 1
                - empty_payloads [(lit "A", []); (lit "B", [zero])]).
Proof.
  apply (image_length_sectors [(lit "A", []); (lit "B", [zero])]).
  vm_compute. reflexivity.
Defined.

(** ** No holes in the FAT *)

Lemma run_of_sector (streams : list stream) (i : Z) :
  3 <= i < 3 + sectors_sum streams ->
  exists (k : nat) name data,
    streams !! k = Some (name, data)
    /\ 3 + sectors_sum (take k streams) <= i
       < 3 + sectors_sum (take k streams) + nsectors data.
Proof.
  induction streams as [|[name data] rest IH] using rev_ind; intros Hi.
  - simpl in Hi. lia.
  - rewrite sectors_sum_app in Hi. cbn [sectors_sum] in Hi.
    destruct (decide (i < 3 + sectors_sum rest)) as [Hlt|Hge].
    + destruct IH as (k & name' & data' & Hk & Hrun); [lia|].
      pose proof (lookup_lt_Some _ _ _ Hk) as Hklt.
      exists k, name', data'. split; [by rewrite lookup_app_l|].
      by rewrite take_app_le by lia.
    + exists (length rest), name, data. split; [by rewrite list_lookup_middle|].
      rewrite take_app_length. lia.
Qed.

(** X9: for every stream list within capacity, every FAT entry of a data
    sector, 3 <= i < total_sectors, is the next sector i + 1 of its chain
    or ENDOFCHAIN: the streams are packed with no free sector between
    them. *)
Theorem fat_has_no_holes (streams : list stream) :
  within_capacity streams = true ->
  exists img,
    build_ole2 streams = Ok img
    /\ forall i, 3 <= i < total_sectors streams ->
         (fat_entry img i = i + 1 /\ i + 1 < total_sectors streams)
         \/ fat_entry img i = ENDOFCHAIN.
Proof.
  intros Hcap.
  destruct (build_ole2_total streams Hcap) as (fat & ds & Hfat & _ & HL & HF & HLd & Himg).
  apply within_capacity_unfold in Hcap as (Hn & Hnames & Hsec).
  destruct (build_fat_total streams) as (fat' & Hfat' & _ & _ & _ & _ & Hch).
  { rewrite total_sectors_eq. lia. }
  rewrite Hfat in Hfat'. inversion Hfat'; subst fat'. clear Hfat'.
  eexists. split; [exact Himg|].
  intros i Hi. rewrite total_sectors_eq in *.
  destruct (run_of_sector streams i Hi) as (k & name & data & Hk & Hrun).
  pose proof (sectors_sum_take_S _ _ _ _ Hk) as HS.
  pose proof (sectors_sum_take_le streams (S k)) as Hle.
  specialize (Hch k name data Hk (i - (3 + sectors_sum (take k streams))) ltac:(lia)).
  replace (3 + sectors_sum (take k streams) + (i - (3 + sectors_sum (take k streams))))
    with i in Hch by lia.
  pose proof (fat_entry_image fat ds (build_body streams) (Z.to_nat i) _ HL HF HLd Hch)
    as Hfe.
  rewrite Z2Nat.id in Hfe by lia. rewrite Hfe.
  unfold chain_value. destruct (_ <? _) eqn:E; [left; lia|by right].
Qed.

Lemma fat_has_no_holes_witness :
  exists img,
    build_ole2 [(lit "A", replicate 600 zero); (lit "B", [])] = Ok img
    /\ forall i, 3 <= i < total_sectors [(lit "A", replicate 600 zero); (lit "B", [])] ->
         (fat_entry img i = i + 1
          /\ i + 1 < total_sectors [(lit "A", replicate 600 zero); (lit "B", [])])
         \/ fat_entry img i = ENDOFCHAIN.
Proof.
  apply (fat_has_no_holes [(lit "A", replicate 600 zero); (lit "B", [])]).
  vm_compute. reflexivity.
Defined.

(** ** The rest of the header *)

Lemma header_difat_free :
  map (fun i => u32_at header_bytes (76 + 4 * i)) (seq 1 108) = replicate 108 FREESECT.
Proof. vm_compute. reflexivity. Qed.

(** X10: in every image [build_ole2] returns, the header also carries the
    mini-stream cutoff 0x1000, a zero transaction signature, zero reserved
    bytes, no DIFAT sector (start ENDOFCHAIN, count 0), FAT sector 0 in
    DIFAT slot 0 and FREESECT in the other 108 slots, which end the
    header. *)
Theorem header_tail (streams : list stream) (img : bytes) :
  build_ole2 streams = Ok img ->
  hdr_mini_cutoff img = 0x1000
  /\ hdr_transaction img = 0
  /\ hdr_reserved img = replicate 6 zero
  /\ hdr_difat_start img = ENDOFCHAIN
  /\ hdr_difat_sectors img = 0
  /\ hdr_difat img 0 = 0
  /\ (forall i : nat, (1 <= i <= 108)%nat -> hdr_difat img i = FREESECT)
  /\ (76 + 4 * 109 = 512)%nat.
Proof.
  intros H. apply header_of_image in H.
  unfold hdr_mini_cutoff, hdr_transaction, hdr_reserved, hdr_difat_start,
    hdr_difat_sectors, hdr_difat. rewrite H.
  repeat (split; [vm_compute; reflexivity|]). split; [|done].
  intros i Hi.
  pose proof (f_equal (fun l => l !! (i - 1)%nat) header_difat_free) as Hl.
  cbv beta in Hl. rewrite list_lookup_fmap, lookup_seq_lt, lookup_replicate_2 in Hl by lia.
  change (Some (u32_at header_bytes (76 + 4 * (1 + (i - 1)))) = Some FREESECT) in Hl.
  replace (1 + (i - 1))%nat with i in Hl by lia. congruence.
Qed.

Lemma header_tail_witness :
  hdr_mini_cutoff empty_image = 0x1000
  /\ hdr_transaction empty_image = 0
  /\ hdr_reserved empty_image = replicate 6 zero
  /\ hdr_difat_start empty_image = ENDOFCHAIN
  /\ hdr_difat_sectors empty_image = 0
  /\ hdr_difat empty_image 0 = 0
  /\ (forall i : nat, (1 <= i <= 108)%nat -> hdr_difat empty_image i = FREESECT)
  /\ (76 + 4 * 109 = 512)%nat.
Proof. apply (header_tail [] empty_image). vm_compute. reflexivity. Defined.

(** ** How the sectors are assigned *)

Lemma nsectors_ceil (data : bytes) :
  nsectors data = Z.max 1 (ceil_div (len data) 512).
Proof. unfold nsectors, ceil_div, SECTOR. lia. Qed.

(** X11: for every stream list, [sector_starts] has one start per stream;
    the first is 3, each next start is the previous one plus
    max(1, ceil(len / 512)) sectors of the previous payload, and the last run
    ends at [total_sectors]: the runs are contiguous, in input order. *)
Theorem sector_starts_contiguous (streams : list stream) :
  length (sector_starts streams) = length streams
  /\ (forall name data rest, streams = (name, data) :: rest ->
        sector_starts streams !! 0%nat = Some 3)
  /\ (forall (k : nat) name data,
        streams !! k = Some (name, data) ->
        exists s,
          sector_starts streams !! k = Some s
          /\ nsectors data = Z.max 1 (ceil_div (len data) 512)
          /\ (if decide (S k = length streams)
              then total_sectors streams = s + nsectors data
              else sector_starts streams !! S k = Some (s + nsectors data)))
  /\ (streams = [] -> total_sectors streams = 3).
Proof.
  split; [|split; [|split]].
  - unfold sector_starts. rewrite assign_sectors_eq. apply length_starts_from.
  - intros name data rest ->.
    by rewrite (lookup_sector_starts _ 0 (name, data)).
  - intros k name data Hk. eexists. split; [by eapply lookup_sector_starts|].
    split; [apply nsectors_ceil|].
    pose proof (sectors_sum_take_S _ _ _ _ Hk) as HS.
    case_decide as E.
    + rewrite total_sectors_eq. rewrite E, firstn_all in HS. lia.
    + pose proof (lookup_lt_Some _ _ _ Hk) as Hlt.
      destruct (streams !! S k) as [x|] eqn:Hx.
      * rewrite (lookup_sector_starts _ _ _ Hx). f_equal. lia.
      * apply lookup_ge_None in Hx. lia.
  - intros ->. reflexivity.
Qed.

(** ** Offsets and sizes of the property set *)

Lemma offsets_aligned (lo : Z) (props : list (Z * bytes)) (offs offs' : list Z)
    (off off' : Z) :
  fold_left offset_step props (offs, off) = (offs', off') ->
  off mod 4 = 0 -> lo <= off ->
  Forall (fun o => o mod 4 = 0 /\ lo <= o) offs ->
  off' mod 4 = 0 /\ lo <= off'
  /\ Forall (fun o => o mod 4 = 0 /\ lo <= o) offs'.
Proof.
  revert offs off. induction props as [|[pid v] rest IH]; intros offs off H Hm Hlo HF.
  - simpl in H. inversion H; subst. done.
  - cbn [fold_left offset_step] in H.
    assert (0 <= len v) as Hv by (unfold len; lia).
    pose proof (land_lnot3 (off + len v + 3)) as Hal.
    apply IH in H; [done|lia|lia|].
    apply Forall_app. split; [done|]. by constructor.
Qed.

Lemma offsets_snoc (props : list (Z * bytes)) (pid : Z) (v : bytes)
    (offs offs' : list Z) (off off' : Z) :
  fold_left offset_step (props ++ [(pid, v)]) (offs, off) = (offs', off') ->
  exists offs1 off1,
    fold_left offset_step props (offs, off) = (offs1, off1)
    /\ offs' = offs1 ++ [off1]
    /\ off' = Z.land (off1 + len v + 3) (Z.lnot 3).
Proof.
  rewrite fold_left_app.
  destruct (fold_left offset_step props (offs, off)) as [offs1 off1].
  cbn [fold_left offset_step]. intros H. exists offs1, off1.
  split; [done|]. split; congruence.
Qed.

(** What the size field says against what is emitted, for every summary
    stream [make_summary_stream] returns: the field is a multiple of 4 and 2
    more than the length of the section, because the offsets loop counts a
    pad after the last value and the values loop does not write it. *)
Lemma section_size_overstated (page_count : Z) (title author : str) (s : bytes) :
  make_summary_stream page_count title author = Ok s ->
  section_size_field s = len (section_of s) + 2
  /\ section_size_field s mod 4 = 0
  /\ len s = 48 + len (section_of s).
Proof.
  intros Hs.
  destruct (summary_section _ _ _ _ Hs)
    as (offsets & off & Hfo & Hsize & Hcount & Hids & Hoffs & HLo & Hrd).
  apply make_summary_stream_Ok in Hs as (_ & ps & _ & Hs & Hsec).
  assert (len s = 48 + len (section_of s)) as Hlen.
  { rewrite Hsec, Hs. unfold len. rewrite length_app.
    change (length stream_header_bytes) with 48%nat. lia. }
  split; [|split; [|exact Hlen]].
  - unfold expected_props in Hfo at 1. rewrite app_assoc in Hfo.
    apply offsets_snoc in Hfo as (offs1 & off1 & Hfo1 & -> & ->).
    destruct (offsets_aligned 0 _ _ _ _ _ Hfo1) as (Hm1 & _ & _);
      [unfold len; lia|unfold len; lia|done|].
    destruct (expected_props_last page_count title author) as (j & Hj & HS).
    rewrite length_app in HLo. simpl in HLo.
    destruct (Hrd j _ _ off1 Hj) as [_ HL].
    { rewrite lookup_app_r by lia. replace (j - length offs1)%nat with 0%nat by lia. done. }
    specialize (HL HS). unfold len in HL at 1. rewrite i4_value_length in HL.
    rewrite Hsize. unfold len at 1. rewrite i4_value_length.
    rewrite land_lnot3. lia.
  - rewrite Hsize.
    by destruct (offsets_aligned 0 _ _ _ _ _ Hfo) as (Hm & _ & _);
      [unfold len; lia|unfold len; lia|done|].
Qed.

(** X12: in every summary stream [make_summary_stream] returns, each
    property in turn has its ID in the table and an offset that is a
    multiple of 4, lies behind the table and points at the value: the bytes
    at the offset are the type and the value [_prop_str] or [_prop_i4]
    built. *)
Theorem offsets_point_at_values (page_count : Z) (title author : str) (s : bytes) :
  make_summary_stream page_count title author = Ok s ->
  length (section_offsets s) = length (section_ids s)
  /\ forall (j : nat) pid v,
       expected_props page_count title author !! j = Some (pid, v) ->
       exists o,
         section_ids s !! j = Some pid
         /\ section_offsets s !! j = Some o
         /\ o mod 4 = 0
         /\ 8 + 8 * section_count s <= o
         /\ slice (section_of s) (Z.to_nat o) (length v) = v.
Proof.
  intros Hs.
  destruct (summary_section _ _ _ _ Hs)
    as (offsets & off & Hfo & Hsize & Hcount & Hids & Hoffs & HLo & Hrd).
  split; [by rewrite Hoffs, Hids, length_map|].
  intros j pid v Hj.
  destruct (offsets !! j) as [o|] eqn:Ho.
  2: { apply lookup_ge_None in Ho. apply lookup_lt_Some in Hj. lia. }
  exists o.
  destruct (offsets_aligned (8 + 8 * len (expected_props page_count title author))
              _ _ _ _ _ Hfo) as (_ & _ & HF);
    [unfold len; lia|lia|done|].
  rewrite Forall_forall in HF.
  destruct (HF o) as [Hm Hlo]; [by eapply list_elem_of_lookup_2|].
  split; [by rewrite Hids, list_lookup_fmap, Hj|].
  split; [by rewrite Hoffs|]. split; [done|]. split; [by rewrite Hcount|].
  by destruct (Hrd j pid v o Hj Ho).
Qed.

Lemma offsets_point_at_values_witness :
  length (section_offsets summary7) = length (section_ids summary7)
  /\ forall (j : nat) pid v,
       expected_props 7 (lit "T") (lit "A") !! j = Some (pid, v) ->
       exists o,
         section_ids summary7 !! j = Some pid
         /\ section_offsets summary7 !! j = Some o
         /\ o mod 4 = 0
         /\ 8 + 8 * section_count summary7 <= o
         /\ slice (section_of summary7) (Z.to_nat o) (length v) = v.
Proof.
  apply (offsets_point_at_values 7 (lit "T") (lit "A") summary7).
  vm_compute. reflexivity.
Defined.

(** ** Reading the properties back *)

Lemma summary_props_bounds (page_count : Z) (title author : str) props :
  summary_props page_count title author = Ok props ->
  (title <> [] -> in_u32 (len (str_data title)))
  /\ (author <> [] -> in_u32 (len (str_data author))).
Proof.
  unfold summary_props.
  case_bool_decide as Ht; case_bool_decide as Ha; mstep;
    repeat match goal with
    | |- context [_prop_str ?p ?t] =>
        let E := fresh "E" in
        destruct (_prop_str p t) as [?|] eqn:E;
        [apply _prop_str_Ok in E as [_ ?]; mstep|done]
    end; intros _; split; intros; done.
Qed.

Lemma make_summary_stream_bounds (page_count : Z) (title author : str) (s : bytes) :
  make_summary_stream page_count title author = Ok s ->
  in_i32 page_count
  /\ (title <> [] -> in_u32 (len (str_data title)))
  /\ (author <> [] -> in_u32 (len (str_data author))).
Proof.
  intros Hs. split; [by apply make_summary_stream_Ok in Hs as [Hi _]|].
  unfold make_summary_stream in Hs.
  destruct (summary_props page_count title author) as [props|] eqn:Hp; [|done].
  by apply summary_props_bounds in Hp.
Qed.

Lemma slice_of_slice (sec v : bytes) (o n a m p : nat) :
  slice sec o n = v -> p = (o + a)%nat -> (a + m <= n)%nat ->
  slice sec p m = slice v a m.
Proof. intros <- -> H. by rewrite slice_slice. Qed.

Lemma signed32_mod (v : Z) : in_i32 v -> signed32 (v mod 2 ^ 32) = v.
Proof.
  unfold in_i32, signed32. intros Hv.
  destruct (v mod 2 ^ 32 <? 2 ^ 31) eqn:E; lia.
Qed.

Lemma read_value_i4 (sec : bytes) (o : nat) (value : Z) :
  in_i32 value ->
  slice sec o (length (i4_value value)) = i4_value value ->
  read_value sec o = Some (PInt value).
Proof.
  intros Hi Hv. rewrite i4_value_length in Hv.
  assert (u16_at sec o = VT_I4) as H16.
  { unfold u16_at. rewrite (slice_of_slice _ _ _ _ 0 2 _ Hv) by lia.
    unfold i4_value. rewrite slice_app_here by (by rewrite le_bytes_length).
    apply le_value_le_bytes. unfold VT_I4. simpl. lia. }
  assert (u32_at sec (o + 2) = value mod 2 ^ 32) as H32.
  { unfold u32_at. rewrite (slice_of_slice _ _ _ _ 2 4 _ Hv) by lia.
    unfold i4_value. rewrite slice_app_skip by (rewrite le_bytes_length; lia).
    rewrite le_bytes_length. simpl Nat.sub.
    rewrite <- (app_nil_r (le_bytes 4 _)).
    rewrite slice_app_here by (by rewrite le_bytes_length).
    apply le_value_le_bytes. simpl. lia. }
  unfold read_value. rewrite H16, H32.
  change (VT_I4 =? VT_I4) with true. cbv iota. by rewrite signed32_mod.
Qed.

Lemma read_value_str (sec : bytes) (o : nat) (text : str) :
  in_u32 (len (str_data text)) ->
  slice sec o (length (str_value text)) = str_value text ->
  read_value sec o = Some (PStr (str_data text)).
Proof.
  intros Hb Hv.
  assert (length (str_value text) = (6 + length (str_data text))%nat) as HL.
  { pose proof (str_value_length text). unfold len in *. lia. }
  assert (u16_at sec o = VT_LPSTR) as H16.
  { unfold u16_at. rewrite (slice_of_slice _ _ _ _ 0 2 _ Hv) by lia.
    unfold str_value. rewrite slice_app_here by (by rewrite le_bytes_length).
    apply le_value_le_bytes. unfold VT_LPSTR. simpl. lia. }
  assert (u32_at sec (o + 2) = len (str_data text)) as H32.
  { unfold u32_at. rewrite (slice_of_slice _ _ _ _ 2 4 _ Hv) by lia.
    unfold str_value. rewrite slice_app_skip by (rewrite le_bytes_length; lia).
    rewrite le_bytes_length. simpl Nat.sub.
    rewrite slice_app_here by (by rewrite le_bytes_length).
    apply le_value_le_bytes. exact Hb. }
  assert (slice sec (o + 6) (length (str_data text)) = str_data text) as Hsl.
  { rewrite (slice_of_slice _ _ _ _ 6 (length (str_data text)) _ Hv) by lia.
    unfold str_value. rewrite !slice_app_skip by (rewrite ?le_bytes_length; lia).
    rewrite !le_bytes_length. simpl Nat.sub.
    rewrite <- (app_nil_r (str_data text)) at 1. by apply slice_app_here. }
  unfold read_value. rewrite H16, H32.
  change (VT_LPSTR =? VT_I4) with false. change (VT_LPSTR =? VT_LPSTR) with true.
  cbv iota.
  replace (Z.to_nat (len (str_data text))) with (length (str_data text))
    by (unfold len; lia).
  by rewrite Hsl.
Qed.

Lemma cstring_text (text : str) (tail : bytes) :
  Forall (fun c => 1 <= c <= 255) text ->
  decode_latin1 (cstring (encode_latin1_replace text ++ zero :: tail)) = text.
Proof.
  induction 1 as [|c text Hc HF IH]; [done|].
  cbn [encode_latin1_replace map app cstring].
  replace ((0 <=? c) && (c <? 256)) with true by lia.
  rewrite Z_of_byte_of_Z. replace (c mod 256 =? 0) with false by lia.
  cbn [decode_latin1 map]. rewrite Z_of_byte_of_Z.
  f_equal; [lia|]. exact IH.
Qed.

Lemma cstring_str_data (text : str) :
  Forall (fun c => 1 <= c <= 255) text ->
  decode_latin1 (cstring (str_data text)) = text.
Proof.
  intros HF. unfold str_data.
  destruct (_ =? 0).
  - by apply cstring_text.
  - rewrite <- app_assoc. by apply cstring_text.
Qed.

(** X13: round trip. In every summary stream [make_summary_stream]
    returns, the property 0x0E read back at its offset is the integer
    [page_count]; the properties 0x02 and 0x04 are absent for an empty
    string and otherwise read back as the bytes [_prop_str] built, which up
    to the first null are the title and the author themselves when their
    characters are Latin-1 and not null. *)
Theorem summary_round_trip (page_count : Z) (title author : str) (s : bytes) :
  make_summary_stream page_count title author = Ok s ->
  read_property s 0x0E = Some (PInt page_count)
  /\ read_property s 0x02
     = (if bool_decide (title = []) then None else Some (PStr (str_data title)))
  /\ read_property s 0x04
     = (if bool_decide (author = []) then None else Some (PStr (str_data author)))
  /\ (title <> [] -> Forall (fun c => 1 <= c <= 255) title ->
      read_text s 0x02 = Some title)
  /\ (author <> [] -> Forall (fun c => 1 <= c <= 255) author ->
      read_text s 0x04 = Some author).
Proof.
  intros Hs.
  destruct (make_summary_stream_bounds _ _ _ _ Hs) as (Hi & Hbt & Hba).
  destruct (summary_section _ _ _ _ Hs)
    as (offsets & off & Hfo & Hsize & Hcount & Hids & Hoffs & HLo & Hrd).
  assert (forall (j : nat) pid v,
            expected_props page_count title author !! j = Some (pid, v) ->
            index_of pid (section_ids s) = Some j ->
            exists o, offsets !! j = Some o
                      /\ read_property s pid = read_value (section_of s) (Z.to_nat o)
                      /\ slice (section_of s) (Z.to_nat o) (length v) = v) as Hread.
  { intros j pid v Hj Hidx.
    destruct (offsets !! j) as [o|] eqn:Ho.
    2: { apply lookup_ge_None in Ho. apply lookup_lt_Some in Hj. lia. }
    exists o. split; [done|]. split; [|by destruct (Hrd j pid v o Hj Ho)].
    unfold read_property. by rewrite Hidx, Hoffs, Ho. }
  assert (read_property s 0x0E = Some (PInt page_count)
          /\ read_property s 0x02
             = (if bool_decide (title = []) then None else Some (PStr (str_data title)))
          /\ read_property s 0x04
             = (if bool_decide (author = []) then None
                else Some (PStr (str_data author)))) as (H14 & H2 & H4).
  { rewrite expected_props_ids in Hids. unfold expected_props in Hread.
    case_bool_decide as Ht; case_bool_decide as Ha; cbn [app] in Hids, Hread.
    - split; [|split].
      + destruct (Hread 0%nat _ _ eq_refl) as (o & _ & -> & Hv); [by rewrite Hids|].
        by apply read_value_i4.
      + unfold read_property. by rewrite Hids.
      + unfold read_property. by rewrite Hids.
    - split; [|split].
      + destruct (Hread 1%nat _ _ eq_refl) as (o & _ & -> & Hv); [by rewrite Hids|].
        by apply read_value_i4.
      + unfold read_property. by rewrite Hids.
      + destruct (Hread 0%nat _ _ eq_refl) as (o & _ & -> & Hv); [by rewrite Hids|].
        apply read_value_str; [by apply Hba|done].
    - split; [|split].
      + destruct (Hread 1%nat _ _ eq_refl) as (o & _ & -> & Hv); [by rewrite Hids|].
        by apply read_value_i4.
      + destruct (Hread 0%nat _ _ eq_refl) as (o & _ & -> & Hv); [by rewrite Hids|].
        apply read_value_str; [by apply Hbt|done].
      + unfold read_property. by rewrite Hids.
    - split; [|split].
      + destruct (Hread 2%nat _ _ eq_refl) as (o & _ & -> & Hv); [by rewrite Hids|].
        by apply read_value_i4.
      + destruct (Hread 0%nat _ _ eq_refl) as (o & _ & -> & Hv); [by rewrite Hids|].
        apply read_value_str; [by apply Hbt|done].
      + destruct (Hread 1%nat _ _ eq_refl) as (o & _ & -> & Hv); [by rewrite Hids|].
        apply read_value_str; [by apply Hba|done]. }
  split; [done|]. split; [done|]. split; [done|]. split.
  - intros Ht HF. unfold read_text. rewrite H2.
    rewrite bool_decide_eq_false_2 by done. by rewrite cstring_str_data.
  - intros Ha HF. unfold read_text. rewrite H4.
    rewrite bool_decide_eq_false_2 by done. by rewrite cstring_str_data.
Qed.

Lemma summary_round_trip_witness :
  read_property summary7 0x0E = Some (PInt 7)
  /\ read_property summary7 0x02
     = (if bool_decide (lit "T" = []) then None else Some (PStr (str_data (lit "T"))))
  /\ read_property summary7 0x04
     = (if bool_decide (lit "A" = []) then None else Some (PStr (str_data (lit "A"))))
  /\ (lit "T" <> [] -> Forall (fun c => 1 <= c <= 255) (lit "T") ->
      read_text summary7 0x02 = Some (lit "T"))
  /\ (lit "A" <> [] -> Forall (fun c => 1 <= c <= 255) (lit "A") ->
      read_text summary7 0x04 = Some (lit "A")).
Proof.
  apply (summary_round_trip 7 (lit "T") (lit "A") summary7).
  vm_compute. reflexivity.
Defined.

(** ** The patch of the XLS header *)

Lemma unpack_I_slice (file : bytes) (off : nat) :
  (off + 4 <= length file)%nat ->
  unpack_I (slice file off 4) = Ok (u32_at file off).
Proof.
  intros H. unfold unpack_I, len. by rewrite slice_length by done.
Qed.

Lemma patch_keeps (file : bytes) :
  (64 <= length file)%nat -> u32_at file 60 <> ENDOFCHAIN ->
  patch_minifat_start file = Ok file.
Proof.
  intros HL Hne. unfold patch_minifat_start.
  rewrite unpack_I_slice by lia. mstep.
  destruct (u32_at file 60 =? 0xFFFFFFFE) eqn:E; [|done].
  apply Z.eqb_eq in E. by unfold ENDOFCHAIN in Hne.
Qed.

(** X14: on a file of at least 64 bytes the patch returns a file of the
    same length that differs from the input at most in bytes 60 .. 63; the
    field at byte 60 is FREESECT where it was ENDOFCHAIN and unchanged
    otherwise, so it is never ENDOFCHAIN afterwards; patching again changes
    nothing. *)
Theorem patch_minifat_start_spec (file : bytes) :
  (64 <= length file)%nat ->
  exists file',
    patch_minifat_start file = Ok file'
    /\ length file' = length file
    /\ take 60 file' = take 60 file
    /\ drop 64 file' = drop 64 file
    /\ u32_at file' 60
       = (if u32_at file 60 =? ENDOFCHAIN then FREESECT else u32_at file 60)
    /\ u32_at file' 60 <> ENDOFCHAIN
    /\ patch_minifat_start file' = Ok file'.
Proof.
  intros HL. unfold patch_minifat_start at 1.
  rewrite unpack_I_slice by lia. mstep.
  change 0xFFFFFFFE with ENDOFCHAIN.
  destruct (u32_at file 60 =? ENDOFCHAIN) eqn:E.
  - change (pack_I 0xFFFFFFFF) with (Ok (le_bytes 4 FREESECT)). mstep.
    eexists. split; [done|].
    assert (length (take 60 file) = 60%nat) as H60 by (rewrite length_take; lia).
    assert (length (take 60 file ++ le_bytes 4 FREESECT ++ drop 64 file) = length file)
      as HL'.
    { rewrite !length_app, H60, le_bytes_length, length_drop. lia. }
    assert (u32_at (take 60 file ++ le_bytes 4 FREESECT ++ drop 64 file) 60 = FREESECT)
      as Hf.
    { unfold u32_at. rewrite slice_app_at by (by rewrite ?le_bytes_length). done. }
    split; [done|]. split; [by rewrite take_app_length' by done|].
    split.
    { rewrite app_assoc. apply drop_app_length'.
      by rewrite length_app, H60, le_bytes_length. }
    split; [done|]. split; [by rewrite Hf|].
    apply patch_keeps; [lia|by rewrite Hf].
  - apply Z.eqb_neq in E. exists file. repeat (split; [done|]).
    by apply patch_keeps.
Qed.

Lemma patch_minifat_start_spec_witness :
  exists file',
    patch_minifat_start sentinel_file = Ok file'
    /\ length file' = length sentinel_file
    /\ take 60 file' = take 60 sentinel_file
    /\ drop 64 file' = drop 64 sentinel_file
    /\ u32_at file' 60
       = (if u32_at sentinel_file 60 =? ENDOFCHAIN then FREESECT
          else u32_at sentinel_file 60)
    /\ u32_at file' 60 <> ENDOFCHAIN
    /\ patch_minifat_start file' = Ok file'.
Proof. apply (patch_minifat_start_spec sentinel_file). vm_compute. lia. Defined.

(** X15: on a file shorter than 64 bytes the read at offset 60 yields fewer
    than 4 bytes and the patch raises [struct.error]; nothing is written. *)
Theorem patch_short_file (file : bytes) :
  (length file < 64)%nat -> patch_minifat_start file = Raise StructError.
Proof.
  intros HL. unfold patch_minifat_start, unpack_I, slice, len.
  rewrite length_take, length_drop.
  destruct (Z.of_nat (4 `min` (length file - 60)) =? 4) eqn:E; [|done].
  apply Z.eqb_eq in E. lia.
Qed.

Lemma patch_short_file_witness :
  patch_minifat_start (replicate 63 zero) = Raise StructError.
Proof. apply patch_short_file. vm_compute. lia. Defined.

(** X16: the patch leaves every image [build_ole2] returns as it is: the
    header of such an image names Mini-FAT sector 2, not ENDOFCHAIN. *)
Theorem patch_leaves_build_ole2 (streams : list stream) (img : bytes) :
  build_ole2 streams = Ok img -> patch_minifat_start img = Ok img.
Proof.
  intros H. pose proof (header_of_image _ _ H) as Hh.
  apply build_ole2_Ok in H as (fat & ds & _ & _ & HL & _ & HLd & Himg).
  assert (2048 <= length img)%nat as HLi.
  { rewrite Himg, layout_length by (by rewrite ?length_table, ?HL). lia. }
  apply patch_keeps; [lia|].
  replace (u32_at img 60) with (u32_at (header_of img) 60).
  - rewrite Hh. vm_compute. discriminate.
  - unfold u32_at, header_of. by rewrite slice_slice by lia.
Qed.

Lemma patch_leaves_build_ole2_witness : patch_minifat_start empty_image = Ok empty_image.
Proof. apply (patch_leaves_build_ole2 [] empty_image). vm_compute. reflexivity. Defined.

(** ** The header of the summary stream *)

(** X17: every summary stream [make_summary_stream] returns starts with
    the same 48 bytes: byte-order mark 0xFFFE, version 0, system identifier
    0x00020006, a zero CLSID, one property set, the SummaryInformation FMTID
    and the offset 48, which is where the section starts. *)
Theorem summary_stream_header (page_count : Z) (title author : str) (s : bytes) :
  make_summary_stream page_count title author = Ok s ->
  take 48 s = stream_header_bytes
  /\ u16_at s 0 = 0xFFFE
  /\ u16_at s 2 = 0
  /\ u32_at s 4 = 0x00020006
  /\ slice s 8 16 = replicate 16 zero
  /\ u32_at s 24 = 1
  /\ slice s 28 16 = _FMTID_SUMMARY
  /\ u32_at s 44 = 48
  /\ section_of s = drop (Z.to_nat (u32_at s 44)) s.
Proof.
  intros Hs. apply make_summary_stream_Ok in Hs as (_ & ps & _ & -> & _).
  assert (forall off n : nat, (off + n <= 48)%nat ->
            slice (stream_header_bytes ++ ps) off n = slice stream_header_bytes off n)
    as Hin.
  { intros off n H. apply slice_app_within. done. }
  unfold u16_at, u32_at. rewrite !Hin by lia.
  split; [by apply take_app_length'|].
  repeat (split; [vm_compute; reflexivity|]). done.
Qed.

Lemma summary_stream_header_witness :
  take 48 summary10 = stream_header_bytes
  /\ u16_at summary10 0 = 0xFFFE
  /\ u16_at summary10 2 = 0
  /\ u32_at summary10 4 = 0x00020006
  /\ slice summary10 8 16 = replicate 16 zero
  /\ u32_at summary10 24 = 1
  /\ slice summary10 28 16 = _FMTID_SUMMARY
  /\ u32_at summary10 44 = 48
  /\ section_of summary10 = drop (Z.to_nat (u32_at summary10 44)) summary10.
Proof. apply (summary_stream_header 10 [] [] summary10). vm_compute. reflexivity. Defined.
